(** * Main.py: ray sensing and fuzzy steering of the simulated car

    A shallow embedding of [src/Main.py].  Python integers are [Z];
    Python floats are idealised as exact rationals [Q]; the trigonometric
    functions of the [math] module, the sprite and drawing operations of
    pygame and the inference engine of skfuzzy are interfaces (type
    classes) of which the car code is a client. *)

From Stdlib Require Import QArith Qround Qminmax Lqa.
From stdpp Require Import gmap strings list fin_maps pretty.

Local Open Scope Z_scope.

(** ** Exceptions *)

Inductive exn : Type :=
  | IndexError
  | KeyError
  | ValueError.

Inductive result (A : Type) : Type :=
  | Ok (a : A)
  | Raise (e : exn).
Arguments Ok {A} a.
Arguments Raise {A} e.

Definition rbind {A B : Type} (m : result A) (k : A -> result B) : result B :=
  match m with
  | Ok a => k a
  | Raise e => Raise e
  end.

Notation "'let*' x ':=' m 'in' k" := (rbind m (fun x => k))
  (at level 10, x pattern, m at level 100, k at level 200).

(** A [for] loop whose body may raise. *)
Fixpoint for_each {A St : Type} (body : A -> St -> result St) (xs : list A) (s : St)
  : result St :=
  match xs with
  | [] => Ok s
  | x :: xs' => let* s' := body x s in for_each body xs' s'
  end.

(** [range(n)] *)
Definition range (n : Z) : list Z := map Z.of_nat (seq 0 (Z.to_nat n)).

(** [enumerate(l)] *)
Definition enumerate {A : Type} (l : list A) : list (Z * A) :=
  zip (range (Z.of_nat (length l))) l.

(** [l[i] = v] on a Python list: raises when [i] is out of range. *)
Definition list_setitem {A : Type} (l : list A) (i : Z) (v : A) : result (list A) :=
  if (0 <=? i) && (i <? Z.of_nat (length l))
  then Ok (<[Z.to_nat i := v]> l)
  else Raise IndexError.

(** [int(q)]: truncation toward zero. *)
Definition py_int (q : Q) : Z :=
  if Qle_bool 0 q then Qfloor q else Qceiling q.

(** ** The [math] module *)

Class MathModule : Type := {
  math_cos : Q -> Q;
  math_sin : Q -> Q;
  math_radians : Q -> Q
}.

(** ** pygame *)

Definition Color : Type := (Z * Z * Z * Z)%type.

Definition Color_eqb (c1 c2 : Color) : bool :=
  let '(r1, g1, b1, a1) := c1 in
  let '(r2, g2, b2, a2) := c2 in
  (r1 =? r2) && (g1 =? g2) && (b1 =? b2) && (a1 =? a2).

(** The display surface, as far as the ray caster reads it. *)
Record Surface : Type := {
  get_width : Z;
  get_height : Z;
  get_at : Z * Z -> Color
}.

Record Keys : Type := {
  K_SPACE : bool;
  K_LEFT : bool;
  K_RIGHT : bool;
  K_UP : bool;
  K_DOWN : bool
}.

Class Pygame : Type := {
  Image : Type;
  Rect : Type;
  transform_rotate : Image -> Q -> Image;
  (* [image.get_rect(center=c)] *)
  get_rect : Image -> Z * Z -> Rect;
  rect_center : Rect -> Z * Z;
  rect_centerx : Rect -> Z;
  rect_centery : Rect -> Z;
  rect_x : Rect -> Z;
  rect_y : Rect -> Z;
  (* [rect.x = v], [rect.y = v] *)
  rect_set_x : Rect -> Q -> Rect;
  rect_set_y : Rect -> Q -> Rect;
  (* [pygame.draw.line(surface, color, start, end, width)] *)
  draw_line : Surface -> Z * Z * Z -> Q * Q -> Q * Q -> Z -> Surface
}.

(** ** Constants *)

Definition RAYS : Z := 7.
Definition SPREAD : Z := 90.

(** ** Car.cast_ray *)

Section CastRay.
Context `{MathModule}.

(** The point sampled at [distance] along the ray. *)
Definition ray_point (start_pos : Q * Q) (angle : Q) (distance : Z) : Z * Z :=
  let '(x, y) := start_pos in
  let dx := (inject_Z distance * math_cos (math_radians angle))%Q in
  let dy := (inject_Z distance * math_sin (math_radians angle))%Q in
  (py_int (x + dx)%Q, py_int (y - dy)%Q).

Definition in_bounds (screen : Surface) (p : Z * Z) : bool :=
  let '(nx, ny) := p in
  (0 <=? nx) && (nx <? get_width screen) && (0 <=? ny) && (ny <? get_height screen).

Definition is_white (screen : Surface) (p : Z * Z) : bool :=
  Color_eqb (get_at screen p) (255, 255, 255, 255).

(** The [for distance in range(max_distance)] loop, [n] iterations left:
    [Some d] is [return d]; [None] is leaving the loop, by [break] or
    by exhaustion. *)
Fixpoint cast_ray_loop (screen : Surface) (start_pos : Q * Q) (angle : Q)
    (n : nat) (distance : Z) : option Z :=
  match n with
  | O => None
  | S n' =>
      let '(x, y) := start_pos in
      let dx := (inject_Z distance * math_cos (math_radians angle))%Q in
      let dy := (inject_Z distance * math_sin (math_radians angle))%Q in
      let '(nx, ny) := (py_int (x + dx)%Q, py_int (y - dy)%Q) in
      if (0 <=? nx) && (nx <? get_width screen)
         && (0 <=? ny) && (ny <? get_height screen)
      then
        let color := get_at screen (nx, ny) in
        if Color_eqb color (255, 255, 255, 255)
        then Some distance
        else cast_ray_loop screen start_pos angle n' (distance + 1)
      else None
  end.

Definition cast_ray (screen : Surface) (start_pos : Q * Q) (angle : Q)
    (max_distance : Z) : Z :=
  match cast_ray_loop screen start_pos angle (Z.to_nat max_distance) 0 with
  | Some distance => distance
  | None => max_distance
  end.
End CastRay.

(** ** skfuzzy: variables, terms, rules *)

(** [np.arange(lo, hi, 1)] *)
Definition arange (lo hi : Z) : list Z :=
  map (fun k => lo + Z.of_nat k) (seq 0 (Z.to_nat (hi - lo))).

(** A triangular membership function is kept as its three break points
    [a, b, c], the second argument of [fuzz.trimf]. *)
Definition fuzz_trimf (universe : list Z) (abc : Z * Z * Z) : Z * Z * Z := abc.

(** [ctrl.Antecedent(universe, label)] and [ctrl.Consequent(universe, label)]. *)
Record FuzzyVariable : Type := {
  var_universe : list Z;
  var_label : string;
  var_terms : gmap string (Z * Z * Z)
}.

Definition Antecedent (universe : list Z) (label : string) : FuzzyVariable :=
  {| var_universe := universe; var_label := label; var_terms := ∅ |}.

Definition Consequent (universe : list Z) (label : string) : FuzzyVariable :=
  {| var_universe := universe; var_label := label; var_terms := ∅ |}.

(** [variable[name]], a term of a variable. *)
Record Term : Type := {
  term_parent : string;
  term_universe : list Z;
  term_label : string;
  term_mf : Z * Z * Z
}.

(** [variable[name] = mf] *)
Definition var_setitem (v : FuzzyVariable) (name : string) (mf : Z * Z * Z)
  : FuzzyVariable :=
  {| var_universe := var_universe v; var_label := var_label v;
     var_terms := <[name := mf]> (var_terms v) |}.

Definition var_getitem (v : FuzzyVariable) (name : string) : result Term :=
  match var_terms v !! name with
  | Some mf => Ok {| term_parent := var_label v; term_universe := var_universe v;
                     term_label := name; term_mf := mf |}
  | None => Raise KeyError
  end.

(** [ctrl.Rule(antecedent, consequent)] *)
Record Rule : Type := {
  rule_antecedent : Term;
  rule_consequent : Term
}.

(** [ctrl.ControlSystem(rules)] *)
Record ControlSystem : Type := {
  cs_rules : list Rule
}.

(** [ctrl.ControlSystemSimulation(control_system)]: the object kept in
    [self.steering] and reused by every call of the controller. *)
Record ControlSystemSimulation : Type := {
  sim_ctrl : ControlSystem;
  sim_input : gmap string Z;
  sim_output : gmap string Q
}.

Definition new_simulation (cs : ControlSystem) : ControlSystemSimulation :=
  {| sim_ctrl := cs; sim_input := ∅; sim_output := ∅ |}.

(** The two operations of the simulation object that the car calls. *)
Class SkFuzzy : Type := {
  (* [sim.input[name] = value] *)
  sim_input_setitem :
    ControlSystemSimulation -> string -> Z -> result ControlSystemSimulation;
  (* [sim.compute()] *)
  sim_compute : ControlSystemSimulation -> result ControlSystemSimulation
}.

(** [d[key]] on a dictionary. *)
Definition dict_getitem {V : Type} (d : gmap string V) (key : string) : result V :=
  match d !! key with
  | Some v => Ok v
  | None => Raise KeyError
  end.

(** [f'distance_{i}'] *)
Definition distance_name (i : Z) : string := "distance_" +:+ pretty i.

(** ** Car.setup_distance and Car.setup_fuzzy_control *)

Definition setup_distance (distance_variable : FuzzyVariable) : FuzzyVariable :=
  let u := var_universe distance_variable in
  let v := var_setitem distance_variable "close" (fuzz_trimf u (0, 0, 100)) in
  let v := var_setitem v "medium" (fuzz_trimf u (50, 100, 400)) in
  var_setitem v "far" (fuzz_trimf u (300, 600, 600)).

(** The body of the rule loop for ray [i]; [rays] is the module constant
    [RAYS], taken as an argument so that statements can range over it. *)
Definition append_rules (rays : Z) (steering : FuzzyVariable)
    (entry : Z * FuzzyVariable) (rules : list Rule) : result (list Rule) :=
  let '(i, dist) := entry in
  let angle_adjustment := (i - rays / 2) * 15 in
  if i <? rays / 2 then
    let* a1 := var_getitem dist "close" in
    let* c1 := var_getitem steering "right" in
    let rules := rules ++ [ {| rule_antecedent := a1; rule_consequent := c1 |} ] in
    let* a2 := var_getitem dist "medium" in
    let* c2 := var_getitem steering "slight_right" in
    Ok (rules ++ [ {| rule_antecedent := a2; rule_consequent := c2 |} ])
  else if i >? rays / 2 then
    let* a1 := var_getitem dist "close" in
    let* c1 := var_getitem steering "left" in
    let rules := rules ++ [ {| rule_antecedent := a1; rule_consequent := c1 |} ] in
    let* a2 := var_getitem dist "medium" in
    let* c2 := var_getitem steering "slight_left" in
    Ok (rules ++ [ {| rule_antecedent := a2; rule_consequent := c2 |} ])
  else
    let* a := var_getitem dist "close" in
    let* c := var_getitem steering
                (if angle_adjustment <? 0 then "hard_left" else "hard_right") in
    Ok (rules ++ [ {| rule_antecedent := a; rule_consequent := c |} ]).

Definition steering_variable : FuzzyVariable :=
  let steering := Consequent (arange (-90) 91) "steering" in
  let u := var_universe steering in
  let steering := var_setitem steering "hard_left" (fuzz_trimf u (-90, -60, -30)) in
  let steering := var_setitem steering "left" (fuzz_trimf u (-45, -30, 0)) in
  let steering := var_setitem steering "slight_left" (fuzz_trimf u (-15, 0, 15)) in
  let steering := var_setitem steering "straight" (fuzz_trimf u (-10, 0, 10)) in
  let steering := var_setitem steering "slight_right" (fuzz_trimf u (-15, 0, 15)) in
  let steering := var_setitem steering "right" (fuzz_trimf u (0, 30, 45)) in
  var_setitem steering "hard_right" (fuzz_trimf u (30, 60, 90)).

Definition make_distances_input (rays : Z) : list FuzzyVariable :=
  let distance := arange 0 601 in
  map setup_distance (map (fun i => Antecedent distance (distance_name i)) (range rays)).

Definition make_rules (rays : Z) : result (list Rule) :=
  for_each (append_rules rays steering_variable)
           (enumerate (make_distances_input rays)) [].

(** What [setup_fuzzy_control] stores in the car:
    [distances_input], [steering_ctrl] and [steering]. *)
Definition setup_fuzzy_control (rays : Z)
  : result (list FuzzyVariable * ControlSystem * ControlSystemSimulation) :=
  let distances_input := make_distances_input rays in
  let* rules := make_rules rays in
  let steering_ctrl := {| cs_rules := rules |} in
  Ok (distances_input, steering_ctrl, new_simulation steering_ctrl).

(** ** The inference engine behind [compute] *)

Definition Qlt_bool (x y : Q) : bool := negb (Qle_bool y x).

(** Modelled from the spec: the evaluation of a triangular membership
    function [(a, b, c)], which [fuzz.trimf] of skfuzzy computes and whose
    code is not in the repository: 0 outside [[a, c]], 1 at [b], linear
    ramps elsewhere. *)
Definition membership (abc : Z * Z * Z) (x : Q) : Q :=
  let '(a, b, c) := abc in
  if Qlt_bool x (inject_Z a) || Qlt_bool (inject_Z c) x then 0%Q
  else if Qeq_bool x (inject_Z b) then 1%Q
  else if Qlt_bool x (inject_Z b)
       then ((x - inject_Z a) / (inject_Z b - inject_Z a))%Q
       else ((inject_Z c - x) / (inject_Z c - inject_Z b))%Q.

(** Modelled from the spec: a crisp input outside the universe of its
    variable is clamped to the universe bounds before fuzzification. *)
Definition clamp (universe : list Z) (v : Z) : Z :=
  match universe with
  | [] => v
  | lo :: _ => Z.max lo (Z.min (List.last universe lo) v)
  end.

(** Modelled from the spec: the firing strength of a rule is the
    membership degree of the crisp input of its antecedent variable in
    its antecedent label; a variable without an input is an input-shape
    error. *)
Definition firing_strength (input : gmap string Z) (r : Rule) : result Q :=
  let t := rule_antecedent r in
  match input !! term_parent t with
  | Some v => Ok (membership (term_mf t) (inject_Z (clamp (term_universe t) v)))
  | None => Raise ValueError
  end.

Fixpoint map_result {A B : Type} (f : A -> result B) (l : list A) : result (list B) :=
  match l with
  | [] => Ok []
  | x :: l' => let* y := f x in let* ys := map_result f l' in Ok (y :: ys)
  end.

(** Modelled from the spec: the effective firing strength of an output
    label is the maximum firing strength over the rules concluding it. *)
Fixpoint effective_strength (rules : list Rule) (fired : list Q) (label : string) : Q :=
  match rules, fired with
  | r :: rules', s :: fired' =>
      if String.eqb (term_label (rule_consequent r)) label
      then Qmax s (effective_strength rules' fired' label)
      else effective_strength rules' fired' label
  | _, _ => 0%Q
  end.

(** Modelled from the spec: the aggregated output set at [x] is the
    pointwise maximum of each concluded label's membership function
    clipped at its effective firing strength. *)
Definition aggregated (rules : list Rule) (fired : list Q) (x : Z) : Q :=
  foldr Qmax 0%Q
    (map (fun r =>
            Qmin (effective_strength rules fired (term_label (rule_consequent r)))
                 (membership (term_mf (rule_consequent r)) (inject_Z x)))
         rules).

(** Modelled from the spec: defuzzification is the centroid
    [sum (x * mu x) / sum (mu x)] over the sampled output universe, and 0
    when the aggregated set is empty everywhere. *)
Definition centroid (universe : list Z) (mu : Z -> Q) : Q :=
  let num := foldr (fun x acc => (inject_Z x * mu x + acc)%Q) 0%Q universe in
  let den := foldr (fun x acc => (mu x + acc)%Q) 0%Q universe in
  if Qeq_bool den 0 then 0%Q else (num / den)%Q.

(** Modelled from the spec: [ControlSystemSimulation.compute] of skfuzzy,
    whose code is not in the repository: fuzzify, fire the rules,
    aggregate, defuzzify, and store the crisp value under the name of the
    output variable. *)
Definition spec_compute (sim : ControlSystemSimulation)
  : result ControlSystemSimulation :=
  let rules := cs_rules (sim_ctrl sim) in
  let* fired := map_result (firing_strength (sim_input sim)) rules in
  match rules with
  | [] => Ok sim
  | r :: _ =>
      let out := rule_consequent r in
      let crisp := centroid (term_universe out) (aggregated rules fired) in
      Ok {| sim_ctrl := sim_ctrl sim; sim_input := sim_input sim;
            sim_output := <[term_parent out := crisp]> (sim_output sim) |}
  end.

(** Modelled from the spec: assigning an input of the simulation, whose
    code is not in the repository; a name that is not an input variable
    of the rule base is an input-shape error. *)
Definition spec_input_setitem (sim : ControlSystemSimulation) (name : string)
    (value : Z) : result ControlSystemSimulation :=
  if existsb (fun r => String.eqb (term_parent (rule_antecedent r)) name)
             (cs_rules (sim_ctrl sim))
  then Ok {| sim_ctrl := sim_ctrl sim;
             sim_input := <[name := value]> (sim_input sim);
             sim_output := sim_output sim |}
  else Raise ValueError.

Definition spec_engine : SkFuzzy :=
  {| sim_input_setitem := spec_input_setitem; sim_compute := spec_compute |}.

(** ** class Car *)

Section CarCode.
Context `{MathModule} `{Pygame} `{SkFuzzy}.

Record Car : Type := {
  original_image : Image;
  image : Image;
  rect : Rect;
  speed : Z;
  angle : Q;
  autopilot : bool;
  distances : list Z;
  distances_input : list FuzzyVariable;
  steering_ctrl : ControlSystem;
  steering : ControlSystemSimulation
}.

Definition set_image (self : Car) (v : Image) : Car :=
  {| original_image := original_image self; image := v; rect := rect self;
     speed := speed self; angle := angle self; autopilot := autopilot self;
     distances := distances self; distances_input := distances_input self;
     steering_ctrl := steering_ctrl self; steering := steering self |}.

Definition set_rect (self : Car) (v : Rect) : Car :=
  {| original_image := original_image self; image := image self; rect := v;
     speed := speed self; angle := angle self; autopilot := autopilot self;
     distances := distances self; distances_input := distances_input self;
     steering_ctrl := steering_ctrl self; steering := steering self |}.

Definition set_angle (self : Car) (v : Q) : Car :=
  {| original_image := original_image self; image := image self; rect := rect self;
     speed := speed self; angle := v; autopilot := autopilot self;
     distances := distances self; distances_input := distances_input self;
     steering_ctrl := steering_ctrl self; steering := steering self |}.

Definition set_autopilot (self : Car) (v : bool) : Car :=
  {| original_image := original_image self; image := image self; rect := rect self;
     speed := speed self; angle := angle self; autopilot := v;
     distances := distances self; distances_input := distances_input self;
     steering_ctrl := steering_ctrl self; steering := steering self |}.

Definition set_distances (self : Car) (v : list Z) : Car :=
  {| original_image := original_image self; image := image self; rect := rect self;
     speed := speed self; angle := angle self; autopilot := autopilot self;
     distances := v; distances_input := distances_input self;
     steering_ctrl := steering_ctrl self; steering := steering self |}.

Definition set_steering (self : Car) (v : ControlSystemSimulation) : Car :=
  {| original_image := original_image self; image := image self; rect := rect self;
     speed := speed self; angle := angle self; autopilot := autopilot self;
     distances := distances self; distances_input := distances_input self;
     steering_ctrl := steering_ctrl self; steering := v |}.

(** [Car.__init__] *)
Definition Car_init (image0 : Image) (initial_position : Z * Z) : result Car :=
  let* fuzzy := setup_fuzzy_control RAYS in
  let '(inputs, control, simulation) := fuzzy in
  Ok {| original_image := image0; image := image0;
        rect := get_rect image0 initial_position;
        speed := 10; angle := 0%Q; autopilot := false;
        distances := replicate (Z.to_nat RAYS) 0;
        distances_input := inputs; steering_ctrl := control;
        steering := simulation |}.

(** The body of the loop of [check_collision] for ray [i]; the state is
    the car and the screen the rays are drawn on. *)
Definition check_collision_ray (i : Z) (st : Car * Surface) : result (Car * Surface) :=
  let '(self, screen) := st in
  let ray_angle :=
    (angle self - inject_Z SPREAD / 2
     + (inject_Z SPREAD / inject_Z (RAYS - 1)) * inject_Z i)%Q in
  let front_center :=
    ((inject_Z (rect_centerx (rect self))
      + inject_Z (speed self) * math_cos (math_radians (angle self)))%Q,
     (inject_Z (rect_centery (rect self))
      - inject_Z (speed self) * math_sin (math_radians (angle self)))%Q) in
  let distance := cast_ray screen front_center ray_angle 600 in
  let* ds := list_setitem (distances self) i distance in
  let self := set_distances self ds in
  let end_x :=
    (fst front_center + inject_Z distance * math_cos (math_radians ray_angle))%Q in
  let end_y :=
    (snd front_center - inject_Z distance * math_sin (math_radians ray_angle))%Q in
  let screen := draw_line screen (255, 0, 0) front_center (end_x, end_y) 2 in
  Ok (self, screen).

Definition check_collision (screen : Surface) (self : Car) : result (Car * Surface) :=
  for_each check_collision_ray (range RAYS) (self, screen).

(** [Car.fuzzy_logic_controller]: the result and the car afterwards. *)
Definition fuzzy_logic_controller (self : Car) : result ((Q * Z) * Car) :=
  let* sim :=
    for_each (fun entry sim =>
                let '(i, dist) := entry in
                sim_input_setitem sim (distance_name i) dist)
             (enumerate (distances self)) (steering self) in
  let* sim := sim_compute sim in
  let self := set_steering self sim in
  let* steering_adjustment := dict_getitem (sim_output (steering self)) "steering" in
  Ok ((steering_adjustment, speed self), self).

(** [Car.update]; [keys] is what [pygame.key.get_pressed()] returns and
    [screen] the global display surface. *)
Definition update (keys : Keys) (screen : Surface) (self : Car)
  : result (Car * Surface) :=
  let self :=
    if K_SPACE keys then set_autopilot self (negb (autopilot self)) else self in
  if negb (autopilot self) then
    let self := if K_LEFT keys then set_angle self (angle self + 5)%Q else self in
    let self := if K_RIGHT keys then set_angle self (angle self - 5)%Q else self in
    let self := set_image self (transform_rotate (original_image self) (angle self)) in
    let self := set_rect self (get_rect (image self) (rect_center (rect self))) in
    let self :=
      if K_UP keys then
        let radians := math_radians (angle self) in
        let self := set_rect self
          (rect_set_x (rect self)
             (inject_Z (rect_x (rect self)) + inject_Z (speed self) * math_cos radians)%Q) in
        set_rect self
          (rect_set_y (rect self)
             (inject_Z (rect_y (rect self)) - inject_Z (speed self) * math_sin radians)%Q)
      else self in
    let self :=
      if K_DOWN keys then
        let radians := math_radians (angle self) in
        let self := set_rect self
          (rect_set_x (rect self)
             (inject_Z (rect_x (rect self)) - inject_Z (speed self) * math_cos radians)%Q) in
        set_rect self
          (rect_set_y (rect self)
             (inject_Z (rect_y (rect self)) + inject_Z (speed self) * math_sin radians)%Q)
      else self in
    Ok (self, screen)
  else
    let* st := check_collision screen self in
    let '(self, screen) := st in
    let* decision := fuzzy_logic_controller self in
    let '((fuzzy_angle, fuzzy_speed), self) := decision in
    let self := set_angle self (angle self + fuzzy_angle)%Q in
    let self := set_image self (transform_rotate (original_image self) (angle self)) in
    let self := set_rect self (get_rect (image self) (rect_center (rect self))) in
    let radians := math_radians (angle self) in
    let self := set_rect self
      (rect_set_x (rect self)
         (inject_Z (rect_x (rect self)) + inject_Z fuzzy_speed * math_cos radians)%Q) in
    let self := set_rect self
      (rect_set_y (rect self)
         (inject_Z (rect_y (rect self)) - inject_Z fuzzy_speed * math_sin radians)%Q) in
    Ok (self, screen).

(** The main loop: one [update] per tick, on the keys pressed and the
    freshly drawn screen of that tick. *)
Fixpoint run (ticks : list (Keys * Surface)) (car : Car) : result Car :=
  match ticks with
  | [] => Ok car
  | (keys, screen) :: ticks' =>
      let* st := update keys screen car in
      run ticks' (fst st)
  end.

(** The invariant of the [distances] array. *)
Definition distances_ok (car : Car) : Prop :=
  Z.of_nat (length (distances car)) = RAYS
  /\ Forall (fun d => 0 <= d <= 600) (distances car).

End CarCode.

(** ** Notions used in the statements *)

(** Every point sampled before distance [d] is on the screen and not white. *)
Definition ray_clear `{MathModule} (screen : Surface) (start_pos : Q * Q)
    (angle : Q) (d : Z) : Prop :=
  forall k, 0 <= k < d ->
    in_bounds screen (ray_point start_pos angle k) = true
    /\ is_white screen (ray_point start_pos angle k) = false.

(** The input variable of ray [i], as [setup_fuzzy_control] builds it. *)
Definition distance_variable (i : Z) : FuzzyVariable :=
  setup_distance (Antecedent (arange 0 601) (distance_name i)).

(** The rules of a rule base whose antecedent is on the variable of ray [i]. *)
Definition rules_of_ray (i : Z) (rules : list Rule) : list Rule :=
  List.filter (fun r => String.eqb (term_parent (rule_antecedent r)) (distance_name i))
              rules.

(** A rule read as (input variable, antecedent label, consequent label). *)
Definition rule_shape (r : Rule) : string * string * string :=
  (term_parent (rule_antecedent r), term_label (rule_antecedent r),
   term_label (rule_consequent r)).

(** What one pass of the rule loop appends for ray [i]. *)
Definition ray_rules (rays i : Z) : list Rule :=
  match append_rules rays steering_variable (i, distance_variable i) [] with
  | Ok rules => rules
  | Raise _ => []
  end.

(** The rule base and control system that the car is constructed with. *)
Definition steering_rules : list Rule :=
  match make_rules RAYS with
  | Ok rules => rules
  | Raise _ => []
  end.

Definition steering_system : ControlSystem := {| cs_rules := steering_rules |}.

(** The simulation object of the car runs the constructed control system. *)
Definition configured `{Pygame} (car : Car) : Prop :=
  sim_ctrl (steering car) = steering_system.

(** The input assignment that a distance vector alone determines. *)
Definition input_of (distances : list Z) : gmap string Z :=
  list_to_map (map (fun entry => (distance_name (fst entry), snd entry))
                   (enumerate distances)).

(** Modelled from the spec: [evaluate(distances)] of the inference
    engine on the constructed rule base, a function of the distance
    vector alone; a vector whose length is not the ray count is an
    input-shape error. *)
Definition evaluate (distances : list Z) : result Q :=
  if Z.of_nat (length distances) =? RAYS then
    let* fired := map_result (firing_strength (input_of distances)) steering_rules in
    Ok (centroid (arange (-90) 91) (aggregated steering_rules fired))
  else Raise ValueError.

(** The states of the car that the program can be in: the constructed
    car, and the car after each further [update]. *)
Inductive reachable `{MathModule} `{Pygame} `{SkFuzzy} : Car -> Prop :=
  | reachable_init image0 initial_position car :
      Car_init image0 initial_position = Ok car -> reachable car
  | reachable_update keys screen car car' screen' :
      reachable car ->
      update keys screen car = Ok (car', screen') ->
      reachable car'.

(** ** A concrete world, for examples *)

(** A [math] module that is exact on the axis directions and works in
    degrees. *)
Definition axis_math : MathModule :=
  {| math_radians := fun a => a;
     math_cos := fun a =>
       if Qeq_bool a 0 then 1%Q else if Qeq_bool a 180 then (-1)%Q else 0%Q;
     math_sin := fun a =>
       if Qeq_bool a 90 then 1%Q else if Qeq_bool a (-90) then (-1)%Q else 0%Q |}.

(** Sprites as their size, rectangles as (x, y, w, h); rotation keeps the
    size and drawing leaves the screen as it is. *)
Definition plain_pygame : Pygame :=
  {| Image := (Z * Z)%type;
     Rect := (Z * Z * Z * Z)%type;
     transform_rotate := fun img _ => img;
     get_rect := fun img c =>
       (fst c - fst img / 2, snd c - snd img / 2, fst img, snd img);
     rect_center := fun r =>
       let '(x, y, w, h) := r in (x + w / 2, y + h / 2);
     rect_centerx := fun r => let '(x, y, w, h) := r in x + w / 2;
     rect_centery := fun r => let '(x, y, w, h) := r in y + h / 2;
     rect_x := fun r => let '(x, y, w, h) := r in x;
     rect_y := fun r => let '(x, y, w, h) := r in y;
     rect_set_x := fun r v => let '(x, y, w, h) := r in (py_int v, y, w, h);
     rect_set_y := fun r v => let '(x, y, w, h) := r in (x, py_int v, w, h);
     draw_line := fun screen _ _ _ _ => screen |}.

(** A 1000 x 800 screen, white from column 520 on and black before. *)
Definition wall_screen : Surface :=
  {| get_width := 1000; get_height := 800;
     get_at := fun p => if 520 <=? fst p then (255, 255, 255, 255) else (0, 0, 0, 255) |}.

(** The car as constructed at the centre of that screen. *)
Definition initial_car : @Car plain_pygame :=
  @Build_Car plain_pygame
    (80, 40) (80, 40) (@get_rect plain_pygame (80, 40) (500, 400))
    10 0%Q false
    (replicate (Z.to_nat RAYS) 0)
    (make_distances_input RAYS)
    steering_system
    (new_simulation steering_system).

(** The same car after measuring open space on every ray. *)
Definition far_car : @Car plain_pygame :=
  @set_distances plain_pygame initial_car (replicate (Z.to_nat RAYS) 600).

(** The same car with an obstacle close on the leftmost ray, once with a
    fresh simulation object and once with one that holds the inputs and
    the output of an earlier decision. *)
Definition near_left_car : @Car plain_pygame :=
  @set_distances plain_pygame initial_car [10; 600; 600; 600; 600; 600; 600].

Definition used_near_left_car : @Car plain_pygame :=
  @set_steering plain_pygame near_left_car
    {| sim_ctrl := steering_system;
       sim_input := input_of [3; 3; 3; 3; 3; 3; 3];
       sim_output := {[ "steering" := 60%Q ]} |}.

(** ** scale_image_to_window *)

(** The surfaces that [scale_image_to_window] handles: their size, and
    [pygame.transform.scale]. *)
Class PygameScale : Type := {
  Picture : Type;
  get_size : Picture -> Z * Z;
  transform_scale : Picture -> Z * Z -> Picture
}.

(** [a / b] on numbers; [None] is ZeroDivisionError. *)
Definition py_truediv (a b : Q) : option Q :=
  if Qeq_bool b 0 then None else Some (a / b)%Q.

(** The pair [(scaled_width, scaled_height)] that
    [scale_image_to_window] computes for an image of size
    [(img_width, img_height)]. *)
Definition scaled_size (size : Z * Z) (window_width window_height : Z)
  : option (Z * Z) :=
  let '(img_width, img_height) := size in
  match py_truediv (inject_Z img_width) (inject_Z img_height) with
  | None => None
  | Some img_ratio =>
      match py_truediv (inject_Z window_width) (inject_Z window_height) with
      | None => None
      | Some window_ratio =>
          if Qlt_bool window_ratio img_ratio then
            let scaled_width := window_width in
            match py_truediv (inject_Z window_width) img_ratio with
            | None => None
            | Some q => Some (scaled_width, py_int q)
            end
          else
            let scaled_height := window_height in
            let scaled_width := py_int (inject_Z window_height * img_ratio)%Q in
            Some (scaled_width, scaled_height)
      end
  end.

Definition scale_image_to_window `{PygameScale} (image : Picture)
    (window_width window_height : Z) : option Picture :=
  match scaled_size (get_size image) window_width window_height with
  | None => None
  | Some scaled => Some (transform_scale image scaled)
  end.

(** ** More of the concrete world *)

(** A 1000 x 800 screen without a white pixel. *)
Definition black_screen : Surface :=
  {| get_width := 1000; get_height := 800; get_at := fun _ => (0, 0, 0, 255) |}.

(** A car whose distances list has lost entries. *)
Definition short_car : @Car plain_pygame :=
  @set_distances plain_pygame initial_car [0; 0; 0].

(** An inference engine whose [compute] always raises. *)
Definition failing_engine : SkFuzzy :=
  {| sim_input_setitem := fun sim name value =>
       Ok {| sim_ctrl := sim_ctrl sim;
             sim_input := <[name := value]> (sim_input sim);
             sim_output := sim_output sim |};
     sim_compute := fun _ => Raise ValueError |}.

Definition no_keys : Keys :=
  {| K_SPACE := false; K_LEFT := false; K_RIGHT := false;
     K_UP := false; K_DOWN := false |}.

Definition space_key : Keys :=
  {| K_SPACE := true; K_LEFT := false; K_RIGHT := false;
     K_UP := false; K_DOWN := false |}.

Definition left_right_keys : Keys :=
  {| K_SPACE := false; K_LEFT := true; K_RIGHT := true;
     K_UP := true; K_DOWN := false |}.

(** Pictures as their size; scaling returns the requested size. *)
Definition size_pictures : PygameScale :=
  {| Picture := (Z * Z)%type;
     get_size := fun p => p;
     transform_scale := fun _ size => size |}.

(** * Properties *)

(** ** Ray casting *)

Section CastRayFacts.
Context `{MathModule}.

Lemma cast_ray_loop_step screen start_pos angle n d :
  cast_ray_loop screen start_pos angle (S n) d =
  if in_bounds screen (ray_point start_pos angle d)
  then if is_white screen (ray_point start_pos angle d)
       then Some d
       else cast_ray_loop screen start_pos angle n (d + 1)
  else None.
Proof. destruct start_pos as [x y]. reflexivity. Qed.

Lemma cast_ray_loop_Some screen start_pos angle n : forall d0 d,
  cast_ray_loop screen start_pos angle n d0 = Some d ->
  d0 <= d < d0 + Z.of_nat n
  /\ (forall k, d0 <= k < d ->
        in_bounds screen (ray_point start_pos angle k) = true
        /\ is_white screen (ray_point start_pos angle k) = false)
  /\ in_bounds screen (ray_point start_pos angle d) = true
  /\ is_white screen (ray_point start_pos angle d) = true.
Proof.
  induction n as [|n IH]; intros d0 d Hl.
  - discriminate.
  - rewrite cast_ray_loop_step in Hl.
    destruct (in_bounds screen (ray_point start_pos angle d0)) eqn:Hin; [|discriminate].
    destruct (is_white screen (ray_point start_pos angle d0)) eqn:Hw.
    + injection Hl as <-. repeat split; try lia; auto.
    + apply IH in Hl as (Hr & Hpre & Hi & Hh).
      repeat split; try lia; auto;
        destruct (Z.eq_dec k d0) as [->|Hne]; auto; apply Hpre; lia.
Qed.

Lemma cast_ray_loop_None screen start_pos angle n : forall d0,
  cast_ray_loop screen start_pos angle n d0 = None ->
  (exists d, d0 <= d < d0 + Z.of_nat n
     /\ (forall k, d0 <= k < d ->
           in_bounds screen (ray_point start_pos angle k) = true
           /\ is_white screen (ray_point start_pos angle k) = false)
     /\ in_bounds screen (ray_point start_pos angle d) = false)
  \/ (forall k, d0 <= k < d0 + Z.of_nat n ->
        in_bounds screen (ray_point start_pos angle k) = true
        /\ is_white screen (ray_point start_pos angle k) = false).
Proof.
  induction n as [|n IH]; intros d0 Hl.
  - right. intros k Hk. lia.
  - rewrite cast_ray_loop_step in Hl.
    destruct (in_bounds screen (ray_point start_pos angle d0)) eqn:Hin.
    + destruct (is_white screen (ray_point start_pos angle d0)) eqn:Hw; [discriminate|].
      destruct (IH _ Hl) as [(d & Hr & Hpre & Hout)|Hall].
      * left. exists d. repeat split; try lia; auto;
          destruct (Z.eq_dec k d0) as [->|Hne]; auto; apply Hpre; lia.
      * right. intros k Hk.
        destruct (Z.eq_dec k d0) as [->|Hne]; auto. apply Hall. lia.
    + left. exists d0. repeat split; try lia; auto; lia.
Qed.

Lemma cast_ray_range screen start_pos angle max_distance :
  0 <= max_distance ->
  0 <= cast_ray screen start_pos angle max_distance <= max_distance.
Proof.
  intros Hm. unfold cast_ray.
  destruct (cast_ray_loop _ _ _ _ _) as [d|] eqn:Hl; [|lia].
  apply cast_ray_loop_Some in Hl as (Hr & _). lia.
Qed.

Lemma py_int_comp (p q : Q) : (p == q)%Q -> py_int p = py_int q.
Proof.
  intros E. unfold py_int.
  assert (Hb : Qle_bool 0 p = Qle_bool 0 q).
  { destruct (Qle_bool 0 p) eqn:Hp, (Qle_bool 0 q) eqn:Hq; auto.
    - apply Qle_bool_iff in Hp. rewrite E in Hp. apply Qle_bool_iff in Hp. congruence.
    - apply Qle_bool_iff in Hq. rewrite <- E in Hq. apply Qle_bool_iff in Hq. congruence. }
  rewrite Hb. destruct (Qle_bool 0 q).
  - now rewrite E.
  - now rewrite E.
Qed.

Lemma ray_point_start x y angle :
  ray_point (x, y) angle 0 = (py_int x, py_int y).
Proof.
  unfold ray_point. f_equal; apply py_int_comp.
  - change (inject_Z 0) with 0%Q. ring.
  - change (inject_Z 0) with 0%Q. ring.
Qed.

(** C3: the ray caster returns the first distance [d < R] whose sampled
    point is on the screen and white, all earlier points being on the
    screen and not white; it returns [R] when a sampled point leaves the
    screen before any hit, and when no point within [R] is hit. *)
Theorem cast_ray_first_hit_or_max screen start_pos angle R :
  (exists d, 0 <= d < R
     /\ ray_clear screen start_pos angle d
     /\ in_bounds screen (ray_point start_pos angle d) = true
     /\ is_white screen (ray_point start_pos angle d) = true
     /\ cast_ray screen start_pos angle R = d)
  \/ (exists d, 0 <= d < R
        /\ ray_clear screen start_pos angle d
        /\ in_bounds screen (ray_point start_pos angle d) = false
        /\ cast_ray screen start_pos angle R = R)
  \/ (ray_clear screen start_pos angle R
      /\ cast_ray screen start_pos angle R = R).
Proof.
  unfold cast_ray, ray_clear.
  destruct (cast_ray_loop screen start_pos angle (Z.to_nat R) 0) as [d|] eqn:Hl.
  - left. exists d. apply cast_ray_loop_Some in Hl as (Hr & Hpre & Hin & Hw).
    repeat split; auto; try lia; apply Hpre; lia.
  - right. apply cast_ray_loop_None in Hl as [(d & Hr & Hpre & Hout)|Hall].
    + left. exists d. repeat split; auto; try lia; apply Hpre; lia.
    + right. split; auto. intros k Hk. apply Hall. lia.
Qed.

(** C10: when the truncated start point is on the screen and white, the
    ray caster returns 0: the first sample, at distance 0, is the start
    point. *)
Theorem cast_ray_blocked_start screen x y angle R :
  0 <= R ->
  in_bounds screen (py_int x, py_int y) = true ->
  is_white screen (py_int x, py_int y) = true ->
  cast_ray screen (x, y) angle R = 0.
Proof.
  intros HR Hin Hw. unfold cast_ray.
  destruct (Z.to_nat R) as [|n] eqn:Hn.
  - simpl. lia.
  - rewrite cast_ray_loop_step, ray_point_start, Hin, Hw. reflexivity.
Qed.

End CastRayFacts.

(** ** The car: collision check, decision step, update *)

Section CarFacts.
Context `{MathModule} `{Pygame} `{SkFuzzy}.

Lemma list_setitem_Ok {A : Type} (l : list A) (i : Z) (v : A) :
  0 <= i < Z.of_nat (length l) ->
  list_setitem l i v = Ok (<[Z.to_nat i := v]> l).
Proof.
  intros Hi. unfold list_setitem.
  destruct (Z.leb_spec 0 i); [|lia].
  destruct (Z.ltb_spec i (Z.of_nat (length l))); [|lia].
  reflexivity.
Qed.

Lemma check_collision_ray_Ok (i : Z) (car : Car) (screen : Surface) :
  0 <= i < Z.of_nat (length (distances car)) ->
  exists d screen',
    check_collision_ray i (car, screen)
    = Ok (set_distances car (<[Z.to_nat i := d]> (distances car)), screen')
    /\ 0 <= d <= 600.
Proof.
  intros Hi. unfold check_collision_ray.
  rewrite (list_setitem_Ok _ _ _ Hi). cbn [rbind].
  eexists _, _. split; [reflexivity|].
  apply cast_ray_range. lia.
Qed.

Lemma check_collision_loop (n : nat) : forall (a : nat) (car : Car) (screen : Surface),
  (a + n <= length (distances car))%nat ->
  exists car' screen',
    for_each check_collision_ray (map Z.of_nat (seq a n)) (car, screen)
    = Ok (car', screen')
    /\ car' = set_distances car (distances car')
    /\ length (distances car') = length (distances car)
    /\ forall (j : nat) (d : Z), distances car' !! j = Some d ->
         ((a <= j < a + n)%nat -> 0 <= d <= 600)
         /\ (~ (a <= j < a + n)%nat -> distances car !! j = Some d).
Proof.
  induction n as [|n IH]; intros a car screen Hlen.
  - exists car, screen. cbn. repeat split; auto; try lia.
    destruct car; reflexivity.
  - cbn [seq map for_each].
    destruct (check_collision_ray_Ok (Z.of_nat a) car screen) as (d0 & s1 & E & Hd0);
      [lia|].
    rewrite E. cbn [rbind]. rewrite Nat2Z.id.
    set (car1 := set_distances car (<[a := d0]> (distances car))).
    destruct (IH (S a) car1 s1) as (car' & s' & E' & Hfr & Hl & Hent).
    { subst car1. cbn. rewrite length_insert. lia. }
    exists car', s'. split; [exact E'|].
    assert (Hl1 : length (distances car1) = length (distances car)).
    { subst car1. cbn. apply length_insert. }
    split; [|split; [lia|]].
    + rewrite Hfr. subst car1. reflexivity.
    + intros j d Hj. destruct (Hent j d Hj) as [Hin Hout]. split.
      * intros Hr. destruct (decide (j = a)) as [->|Hne].
        -- assert (Ha : distances car1 !! a = Some d) by (apply Hout; lia).
           subst car1. cbn in Ha.
           rewrite list_lookup_insert_eq in Ha by lia. congruence.
        -- apply Hin. lia.
      * intros Hr.
        assert (Ha : distances car1 !! j = Some d) by (apply Hout; lia).
        subst car1. cbn in Ha.
        rewrite list_lookup_insert_ne in Ha by lia. exact Ha.
Qed.

Lemma check_collision_Ok (screen : Surface) (car : Car) :
  Z.of_nat (length (distances car)) = RAYS ->
  exists car' screen',
    check_collision screen car = Ok (car', screen')
    /\ car' = set_distances car (distances car')
    /\ distances_ok car'.
Proof.
  intros Hlen. unfold check_collision, range.
  destruct (check_collision_loop (Z.to_nat RAYS) 0 car screen)
    as (car' & s' & E & Hfr & Hl & Hent).
  { unfold RAYS in *. lia. }
  exists car', s'. split; [exact E|]. split; [exact Hfr|].
  split; [lia|].
  apply Forall_lookup. intros j d Hj.
  apply (Hent j d Hj).
  apply lookup_lt_Some in Hj. unfold RAYS in *. lia.
Qed.

Lemma check_collision_ray_frame i (car car' : Car) screen screen' :
  check_collision_ray i (car, screen) = Ok (car', screen') ->
  car' = set_distances car (distances car').
Proof.
  unfold check_collision_ray. intros E.
  destruct (list_setitem _ _ _) as [ds|e]; [|discriminate].
  cbn [rbind] in E. injection E as <- _. reflexivity.
Qed.

Lemma check_collision_frame screen (car car' : Car) screen' :
  check_collision screen car = Ok (car', screen') ->
  car' = set_distances car (distances car').
Proof.
  unfold check_collision. generalize (range RAYS) as l.
  intros l. revert car screen.
  induction l as [|i l IH]; intros car screen E; cbn [for_each] in E.
  - injection E as <- _. destruct car; reflexivity.
  - destruct (check_collision_ray i (car, screen)) as [[car1 s1]|e] eqn:E1;
      [|discriminate].
    cbn [rbind] in E. apply IH in E. apply check_collision_ray_frame in E1.
    rewrite E, E1. reflexivity.
Qed.

(** C9: the decision step returns the stored speed and leaves the car
    as it was but for the simulation object: speed, angle, rectangle,
    distances (and image and autopilot flag) are unchanged. *)
Theorem fuzzy_logic_controller_frame (self self' : Car) (delta : Q) (v : Z) :
  fuzzy_logic_controller self = Ok ((delta, v), self') ->
  v = speed self
  /\ speed self' = speed self
  /\ angle self' = angle self
  /\ rect self' = rect self
  /\ distances self' = distances self
  /\ image self' = image self
  /\ autopilot self' = autopilot self.
Proof.
  unfold fuzzy_logic_controller. intros E.
  destruct (for_each _ _ _) as [sim1|e]; [|discriminate].
  cbn [rbind] in E.
  destruct (sim_compute sim1) as [sim2|e]; [|discriminate].
  cbn [rbind] in E.
  destruct (dict_getitem _ _) as [out|e]; [|discriminate].
  cbn [rbind] in E. injection E as _ <- <-.
  repeat split.
Qed.

Lemma fuzzy_logic_controller_distances (self self' : Car) (r : Q * Z) :
  fuzzy_logic_controller self = Ok (r, self') ->
  distances self' = distances self /\ angle self' = angle self
  /\ speed self' = speed self.
Proof.
  destruct r as [delta v]. intros E.
  unfold fuzzy_logic_controller in E.
  destruct (for_each _ _ _) as [sim1|e]; [|discriminate].
  cbn [rbind] in E.
  destruct (sim_compute sim1) as [sim2|e]; [|discriminate].
  cbn [rbind] in E.
  destruct (dict_getitem _ _) as [out|e]; [|discriminate].
  cbn [rbind] in E. injection E as _ _ <-. repeat split; reflexivity.
Qed.

(** In autopilot mode [update] runs the collision check, takes the
    decision on the car it leaves, and only then adds the steering delta
    to the heading. *)
Lemma update_autopilot_heading keys screen (self car' : Car) screen' :
  xorb (K_SPACE keys) (autopilot self) = true ->
  update keys screen self = Ok (car', screen') ->
  exists mid screen1 delta v mid',
    check_collision screen (set_autopilot self true) = Ok (mid, screen1)
    /\ fuzzy_logic_controller mid = Ok ((delta, v), mid')
    /\ angle mid' = angle self
    /\ angle car' = (angle self + delta)%Q
    /\ distances car' = distances mid
    /\ steering car' = steering mid'.
Proof.
  intros Hx E. unfold update in E.
  set (self0 := if K_SPACE keys then _ else _) in E.
  assert (Ha : self0 = set_autopilot self true).
  { subst self0. destruct (K_SPACE keys), (autopilot self) eqn:Hau;
      try discriminate; cbn; try reflexivity.
    destruct self; cbn in *; subst; reflexivity. }
  rewrite Ha in E. cbn [negb autopilot set_autopilot] in E.
  destruct (check_collision screen (set_autopilot self true)) as [[mid s1]|e] eqn:Ec;
    [|discriminate].
  cbn [rbind] in E.
  destruct (fuzzy_logic_controller mid) as [[[delta v] mid']|e] eqn:Ef; [|discriminate].
  cbn [rbind] in E. injection E as <- <-.
  exists mid, s1, delta, v, mid'.
  destruct (fuzzy_logic_controller_distances _ _ _ Ef) as (Hds & Hang & _).
  apply check_collision_frame in Ec.
  assert (Hmid : angle mid = angle self) by (rewrite Ec; reflexivity).
  repeat split; auto; cbn; congruence.
Qed.

Lemma update_manual_distances keys screen (self car' : Car) screen' :
  xorb (K_SPACE keys) (autopilot self) = false ->
  update keys screen self = Ok (car', screen') ->
  distances car' = distances self.
Proof.
  intros Hx E. unfold update in E.
  destruct (K_SPACE keys), (autopilot self) eqn:Hau; try discriminate;
    cbn [negb autopilot set_autopilot] in E; try rewrite Hau in E;
    cbn [negb] in E; injection E as <- _;
    destruct (K_LEFT keys), (K_RIGHT keys), (K_UP keys), (K_DOWN keys); reflexivity.
Qed.

Lemma Car_init_distances image0 initial_position (car : Car) :
  Car_init image0 initial_position = Ok car ->
  distances car = replicate (Z.to_nat RAYS) 0.
Proof.
  unfold Car_init. destruct (setup_fuzzy_control RAYS) as [[[i c] s]|e]; [|discriminate].
  cbn [rbind]. intros E. injection E as <-. reflexivity.
Qed.

Lemma update_distances_ok keys screen (car car' : Car) screen' :
  distances_ok car ->
  update keys screen car = Ok (car', screen') ->
  distances_ok car'.
Proof.
  intros Hok E.
  destruct (xorb (K_SPACE keys) (autopilot car)) eqn:Hx.
  - destruct (update_autopilot_heading _ _ _ _ _ Hx E)
      as (mid & s1 & delta & v & mid' & Ec & _ & _ & _ & Hds & _).
    destruct (check_collision_Ok screen (set_autopilot car true))
      as (m & s & Ec' & _ & Hm); [exact (proj1 Hok)|].
    rewrite Ec in Ec'. injection Ec' as -> ->.
    unfold distances_ok in *. rewrite Hds. exact Hm.
  - unfold distances_ok in *. rewrite (update_manual_distances _ _ _ _ _ Hx E). exact Hok.
Qed.

Lemma run_reachable (ticks : list (Keys * Surface)) : forall car car' : Car,
  reachable car -> run ticks car = Ok car' -> reachable car'.
Proof.
  induction ticks as [|[keys screen] ticks IH]; intros car car' Hr E; cbn [run] in E.
  - injection E as <-. exact Hr.
  - destruct (update keys screen car) as [[car1 s1]|e] eqn:Eu; [|discriminate].
    cbn [rbind fst] in E. eapply IH; [|exact E].
    eapply reachable_update; eauto.
Qed.

(** C8: in every state the program reaches, the distances array has
    [RAYS] entries, each between 0 and the maximum range 600; and every
    collision check run from such a state completes and leaves an array
    with [RAYS] entries, each between 0 and 600. *)
Theorem distances_invariant (car : Car) :
  reachable car ->
  distances_ok car
  /\ forall screen, exists car' screen',
       check_collision screen car = Ok (car', screen') /\ distances_ok car'.
Proof.
  intros Hr.
  assert (Hok : distances_ok car).
  { induction Hr as [image0 pos car Hi | keys screen car car' screen' Hr IH Hu].
    - unfold distances_ok. rewrite (Car_init_distances _ _ _ Hi). split.
      + reflexivity.
      + unfold RAYS. cbn. repeat constructor; lia.
    - eapply update_distances_ok; eauto. }
  split; [exact Hok|].
  intros screen.
  destruct (check_collision_Ok screen car (proj1 Hok)) as (car' & s' & E & _ & Hc).
  exists car', s'. auto.
Qed.

End CarFacts.

(** ** The rule base *)

Lemma var_getitem_Some (v : FuzzyVariable) (name : string) (mf : Z * Z * Z) :
  var_terms v !! name = Some mf ->
  var_getitem v name
  = Ok {| term_parent := var_label v; term_universe := var_universe v;
          term_label := name; term_mf := mf |}.
Proof. unfold var_getitem. now intros ->. Qed.

Ltac eval_getitem :=
  repeat match goal with
  | |- context [var_getitem ?v ?n] =>
      let o := eval vm_compute in (var_terms v !! n) in
      match o with
      | Some ?mf => rewrite (var_getitem_Some v n mf eq_refl)
      end
  end;
  cbn [rbind].

Section RuleBase.

Lemma range_of_length (n : Z) : range (Z.of_nat (Z.to_nat n)) = range n.
Proof. unfold range. now rewrite Nat2Z.id. Qed.

Lemma length_range (n : Z) : length (range n) = Z.to_nat n.
Proof. unfold range. now rewrite length_map, length_seq. Qed.

Lemma enumerate_distances_input (rays : Z) :
  enumerate (make_distances_input rays)
  = map (fun i => (i, distance_variable i)) (range rays).
Proof.
  unfold enumerate, make_distances_input.
  rewrite !length_map, length_range, range_of_length, map_map.
  generalize (range rays) as l. induction l as [|i l IH]; cbn.
  - reflexivity.
  - f_equal. exact IH.
Qed.

Lemma append_rules_ray (rays i : Z) (rules : list Rule) :
  append_rules rays steering_variable (i, distance_variable i) rules
  = Ok (rules ++ ray_rules rays i).
Proof.
  unfold ray_rules, append_rules.
  destruct (i <? rays / 2); [|destruct (i >? rays / 2)].
  - eval_getitem. now rewrite <- app_assoc.
  - eval_getitem. now rewrite <- app_assoc.
  - destruct ((i - rays / 2) * 15 <? 0); eval_getitem; reflexivity.
Qed.

Lemma for_each_append_rules (rays : Z) (l : list Z) : forall rules,
  for_each (append_rules rays steering_variable)
           (map (fun i => (i, distance_variable i)) l) rules
  = Ok (rules ++ List.flat_map (ray_rules rays) l).
Proof.
  induction l as [|i l IH]; intros rules; cbn [map for_each List.flat_map].
  - now rewrite app_nil_r.
  - rewrite append_rules_ray. cbn [rbind]. rewrite IH. now rewrite <- app_assoc.
Qed.

Lemma make_rules_closed_form (rays : Z) :
  make_rules rays = Ok (List.flat_map (ray_rules rays) (range rays)).
Proof.
  unfold make_rules. rewrite enumerate_distances_input.
  now rewrite for_each_append_rules.
Qed.

Lemma half_bounds (n : Z) : 2 * (n / 2) <= n < 2 * (n / 2) + 2.
Proof.
  pose proof (Z.div_mod n 2). pose proof (Z.mod_pos_bound n 2). lia.
Qed.

Lemma distance_name_inj (i j : Z) : distance_name i = distance_name j -> i = j.
Proof.
  unfold distance_name. cbn. intros E. injection E as E.
  change (pretty i = pretty j) in E. now apply (inj pretty) in E.
Qed.

Lemma distance_name_eqb (i j : Z) :
  String.eqb (distance_name i) (distance_name j) = (i =? j).
Proof.
  destruct (Z.eqb_spec i j) as [->|Hne].
  - apply String.eqb_refl.
  - apply String.eqb_neq. intros E. apply Hne. now apply distance_name_inj.
Qed.

Lemma ray_rules_parent (rays i : Z) :
  Forall (fun r => term_parent (rule_antecedent r) = distance_name i)
         (ray_rules rays i).
Proof.
  unfold ray_rules, append_rules.
  destruct (i <? rays / 2); [|destruct (i >? rays / 2)].
  - eval_getitem. repeat constructor.
  - eval_getitem. repeat constructor.
  - destruct ((i - rays / 2) * 15 <? 0); eval_getitem; repeat constructor.
Qed.

Lemma rules_of_ray_same (i : Z) (l : list Rule) :
  Forall (fun r => term_parent (rule_antecedent r) = distance_name i) l ->
  rules_of_ray i l = l.
Proof.
  unfold rules_of_ray. induction 1 as [|r l Hr _ IH]; cbn.
  - reflexivity.
  - rewrite Hr, String.eqb_refl. now f_equal.
Qed.

Lemma rules_of_ray_other (i j : Z) (l : list Rule) :
  i <> j ->
  Forall (fun r => term_parent (rule_antecedent r) = distance_name j) l ->
  rules_of_ray i l = [].
Proof.
  intros Hne. unfold rules_of_ray. induction 1 as [|r l Hr _ IH]; cbn.
  - reflexivity.
  - rewrite Hr, distance_name_eqb.
    destruct (Z.eqb_spec j i); [congruence|]. exact IH.
Qed.

Lemma rules_of_ray_app (i : Z) (l1 l2 : list Rule) :
  rules_of_ray i (l1 ++ l2) = rules_of_ray i l1 ++ rules_of_ray i l2.
Proof. unfold rules_of_ray. apply List.filter_app. Qed.

Lemma rules_of_ray_seq (rays i : Z) (n : nat) : forall a : nat,
  rules_of_ray i (List.flat_map (ray_rules rays) (map Z.of_nat (seq a n)))
  = if (Z.of_nat a <=? i) && (i <? Z.of_nat (a + n)) then ray_rules rays i else [].
Proof.
  induction n as [|n IH]; intros a; cbn [seq map List.flat_map].
  - destruct (Z.leb_spec (Z.of_nat a) i), (Z.ltb_spec i (Z.of_nat (a + 0)));
      cbn; try reflexivity; lia.
  - rewrite rules_of_ray_app, IH.
    destruct (Z.eq_dec i (Z.of_nat a)) as [->|Hne].
    + rewrite (rules_of_ray_same _ _ (ray_rules_parent rays (Z.of_nat a))).
      destruct (Z.leb_spec (Z.of_nat (S a)) (Z.of_nat a)); [lia|].
      destruct (Z.leb_spec (Z.of_nat a) (Z.of_nat a)); [|lia].
      destruct (Z.ltb_spec (Z.of_nat a) (Z.of_nat (a + S n))); [|lia].
      cbn. now rewrite app_nil_r.
    + rewrite (rules_of_ray_other _ _ _ Hne (ray_rules_parent rays (Z.of_nat a))).
      cbn [app].
      destruct (Z.leb_spec (Z.of_nat (S a)) i), (Z.leb_spec (Z.of_nat a) i),
        (Z.ltb_spec i (Z.of_nat (S a + n))), (Z.ltb_spec i (Z.of_nat (a + S n)));
        cbn; try reflexivity; lia.
Qed.

Lemma rules_of_ray_make_rules (rays i : Z) :
  0 <= i < rays ->
  rules_of_ray i (List.flat_map (ray_rules rays) (range rays)) = ray_rules rays i.
Proof.
  intros Hi. unfold range. rewrite rules_of_ray_seq.
  destruct (Z.leb_spec (Z.of_nat 0) i); [|lia].
  destruct (Z.ltb_spec i (Z.of_nat (0 + Z.to_nat rays))); [|lia].
  reflexivity.
Qed.

Lemma center_rules_closed (rays : Z) :
  0 < rays ->
  map rule_shape
      (rules_of_ray (rays / 2) (List.flat_map (ray_rules rays) (range rays)))
  = [ (distance_name (rays / 2), "close", "hard_right") ].
Proof.
  intros Hpos. rewrite rules_of_ray_make_rules.
  2:{ pose proof (half_bounds rays). lia. }
  unfold ray_rules, append_rules.
  rewrite Z.ltb_irrefl, Z.gtb_ltb, Z.ltb_irrefl, Z.sub_diag.
  cbn [Z.mul Z.ltb Z.compare]. eval_getitem. reflexivity.
Qed.

(** C2: in the rule base built for any positive ray count, the variable
    of the center ray (index [rays / 2]) has exactly one rule; its
    antecedent label is close and its consequent label is hard_right. *)
Theorem center_rule_hard_right (rays : Z) (rules : list Rule) :
  0 < rays ->
  make_rules rays = Ok rules ->
  map rule_shape (rules_of_ray (rays / 2) rules)
  = [ (distance_name (rays / 2), "close", "hard_right") ].
Proof.
  intros Hpos E. rewrite make_rules_closed_form in E. injection E as <-.
  now apply center_rules_closed.
Qed.

(** C4: in the rule base built for any ray count, every ray left of the
    center has exactly the rules close -> right and medium -> slight_right,
    every ray right of the center exactly the rules close -> left and
    medium -> slight_left, and no rule has the antecedent label far. *)
Theorem side_rules (rays : Z) (rules : list Rule) :
  make_rules rays = Ok rules ->
  (forall i, 0 <= i < rays / 2 ->
     map rule_shape (rules_of_ray i rules)
     = [ (distance_name i, "close", "right");
         (distance_name i, "medium", "slight_right") ])
  /\ (forall i, rays / 2 < i < rays ->
        map rule_shape (rules_of_ray i rules)
        = [ (distance_name i, "close", "left");
            (distance_name i, "medium", "slight_left") ])
  /\ Forall (fun r => term_label (rule_antecedent r) <> "far") rules.
Proof.
  intros E. rewrite make_rules_closed_form in E. injection E as <-.
  split; [|split].
  - intros i Hi. rewrite rules_of_ray_make_rules.
    2:{ pose proof (half_bounds rays). lia. }
    unfold ray_rules, append_rules.
    destruct (Z.ltb_spec i (rays / 2)); [|lia]. eval_getitem. reflexivity.
  - intros i Hi. rewrite rules_of_ray_make_rules.
    2:{ pose proof (half_bounds rays). lia. }
    unfold ray_rules, append_rules.
    destruct (Z.ltb_spec i (rays / 2)); [lia|].
    rewrite Z.gtb_ltb. destruct (Z.ltb_spec (rays / 2) i); [|lia].
    eval_getitem. reflexivity.
  - apply List.Forall_forall. intros r Hr. apply in_flat_map in Hr as (i & _ & Hr).
    unfold ray_rules, append_rules in Hr.
    destruct (i <? rays / 2); [|destruct (i >? rays / 2)].
    + revert Hr. eval_getitem. intros [<-|[<-|[]]]; cbn; discriminate.
    + revert Hr. eval_getitem. intros [<-|[<-|[]]]; cbn; discriminate.
    + revert Hr. destruct ((i - rays / 2) * 15 <? 0); eval_getitem;
        intros [<-|[]]; cbn; discriminate.
Qed.

(** C5, as the code has it: for an even positive ray count the setup
    raises nothing; it completes and takes index [rays / 2] as the center
    ray, the one ray with the single rule close -> hard_right. *)
Theorem setup_accepts_even_ray_count (rays : Z) :
  0 < rays ->
  Z.even rays = true ->
  exists inputs rules,
    setup_fuzzy_control rays
    = Ok (inputs, {| cs_rules := rules |}, new_simulation {| cs_rules := rules |})
    /\ map rule_shape (rules_of_ray (rays / 2) rules)
       = [ (distance_name (rays / 2), "close", "hard_right") ].
Proof.
  intros Hpos _. unfold setup_fuzzy_control.
  rewrite make_rules_closed_form. cbn [rbind].
  eexists _, _. split; [reflexivity|]. now apply center_rules_closed.
Qed.

(** C5 fails as stated: with six rays the setup does not raise; it
    returns a control system in which ray 3 is the center ray. *)
Lemma even_ray_count_not_rejected :
  exists fuzzy,
    setup_fuzzy_control 6 = Ok fuzzy
    /\ (forall e, setup_fuzzy_control 6 <> Raise e)
    /\ map rule_shape (rules_of_ray 3 (cs_rules (snd (fst fuzzy))))
       = [ ("distance_3", "close", "hard_right") ].
Proof.
  unfold setup_fuzzy_control. rewrite make_rules_closed_form. cbn [rbind].
  eexists. split; [reflexivity|]. split; [discriminate|].
  cbn [fst snd cs_rules]. exact (center_rules_closed 6 eq_refl).
Qed.

End RuleBase.

(** ** The inference engine: arithmetic of the centroid *)

Section Centroid.

Lemma membership_peak (a b c : Z) :
  a <= b <= c -> membership (a, b, c) (inject_Z b) = 1%Q.
Proof.
  intros [Hab Hbc]. unfold membership, Qlt_bool.
  assert (H1 : Qle_bool (inject_Z a) (inject_Z b) = true)
    by (apply Qle_bool_iff; rewrite <- Zle_Qle; exact Hab).
  assert (H2 : Qle_bool (inject_Z b) (inject_Z c) = true)
    by (apply Qle_bool_iff; rewrite <- Zle_Qle; exact Hbc).
  rewrite H1, H2. cbn [negb orb].
  assert (H3 : Qeq_bool (inject_Z b) (inject_Z b) = true)
    by (apply Qeq_bool_iff; reflexivity).
  rewrite H3. reflexivity.
Qed.

Lemma membership_outside (a b c : Z) (x : Q) :
  (x < inject_Z a \/ inject_Z c < x)%Q -> membership (a, b, c) x = 0%Q.
Proof.
  intros Hx. unfold membership, Qlt_bool.
  destruct (Qle_bool (inject_Z a) x) eqn:H1; cbn [negb orb]; [|reflexivity].
  destruct (Qle_bool x (inject_Z c)) eqn:H2; cbn [negb]; [|reflexivity].
  apply Qle_bool_iff in H1, H2. exfalso.
  destruct Hx as [Hx|Hx].
  - exact (Qlt_not_le _ _ Hx H1).
  - exact (Qlt_not_le _ _ Hx H2).
Qed.

Lemma foldr_Qmax_nonneg (l : list Q) : (0 <= foldr Qmax 0 l)%Q.
Proof.
  induction l as [|q l IH]; cbn.
  - apply Qle_refl.
  - eapply Qle_trans; [exact IH|]. apply Q.le_max_r.
Qed.

Lemma aggregated_nonneg (rules : list Rule) (fired : list Q) (x : Z) :
  (0 <= aggregated rules fired x)%Q.
Proof. apply foldr_Qmax_nonneg. Qed.

Lemma centroid_sums (lo hi : Z) (mu : Z -> Q) (universe : list Z) :
  (forall x, 0 <= mu x)%Q ->
  Forall (fun x => lo <= x <= hi) universe ->
  let num := foldr (fun x acc => (inject_Z x * mu x + acc)%Q) 0%Q universe in
  let den := foldr (fun x acc => (mu x + acc)%Q) 0%Q universe in
  (0 <= den /\ inject_Z lo * den <= num /\ num <= inject_Z hi * den)%Q.
Proof.
  intros Hmu Hall. induction Hall as [|x l [Hlo Hhi] _ IH]; cbn.
  - split; [apply Qle_refl|]. split; rewrite Qmult_0_r; apply Qle_refl.
  - destruct IH as (Hden & Hl & Hh).
    pose proof (Hmu x) as Hx.
    assert (Hlo' : (inject_Z lo <= inject_Z x)%Q) by (rewrite <- Zle_Qle; exact Hlo).
    assert (Hhi' : (inject_Z x <= inject_Z hi)%Q) by (rewrite <- Zle_Qle; exact Hhi).
    split; [|split].
    + replace 0%Q with (0 + 0)%Q by reflexivity. apply Qplus_le_compat; assumption.
    + rewrite Qmult_plus_distr_r. apply Qplus_le_compat; [|exact Hl].
      apply Qmult_le_compat_r; assumption.
    + rewrite Qmult_plus_distr_r. apply Qplus_le_compat; [|exact Hh].
      apply Qmult_le_compat_r; assumption.
Qed.

Lemma centroid_bounds (lo hi : Z) (mu : Z -> Q) (universe : list Z) :
  lo <= 0 <= hi ->
  (forall x, 0 <= mu x)%Q ->
  Forall (fun x => lo <= x <= hi) universe ->
  (inject_Z lo <= centroid universe mu <= inject_Z hi)%Q.
Proof.
  intros [Hlo Hhi] Hmu Hall. unfold centroid.
  destruct (centroid_sums lo hi mu universe Hmu Hall) as (Hden & Hl & Hh).
  cbv zeta in Hden, Hl, Hh.
  set (num := foldr (fun x acc => (inject_Z x * mu x + acc)%Q) 0%Q universe) in *.
  set (den := foldr (fun x acc => (mu x + acc)%Q) 0%Q universe) in *.
  destruct (Qeq_bool den 0) eqn:Hz.
  - split.
    + change (inject_Z lo <= inject_Z 0)%Q. rewrite <- Zle_Qle. exact Hlo.
    + change (inject_Z 0 <= inject_Z hi)%Q. rewrite <- Zle_Qle. exact Hhi.
  - assert (Hpos : (0 < den)%Q).
    { apply Qeq_bool_neq in Hz. apply Qle_lteq in Hden as [Hd|Hd]; [exact Hd|].
      exfalso. apply Hz. symmetry. exact Hd. }
    split.
    + apply Qle_shift_div_l; assumption.
    + apply Qle_shift_div_r; assumption.
Qed.

Lemma arange_bounds (lo hi : Z) : Forall (fun x => lo <= x <= hi - 1) (arange lo hi).
Proof.
  unfold arange. apply List.Forall_forall. intros x Hx.
  apply in_map_iff in Hx as (k & <- & Hk). apply in_seq in Hk. lia.
Qed.

End Centroid.

(** ** The decision step on the modelled engine *)

Section Decision.
Context `{Pygame}.

Local Abbreviation decide_step := (@fuzzy_logic_controller _ spec_engine).

Lemma steering_rules_closed :
  steering_rules = List.flat_map (ray_rules RAYS) (range RAYS).
Proof. unfold steering_rules. now rewrite make_rules_closed_form. Qed.

Lemma steering_rules_parent :
  Forall (fun r => exists k : nat,
            (k < 7)%nat /\ term_parent (rule_antecedent r) = distance_name (Z.of_nat k))
         steering_rules.
Proof.
  rewrite steering_rules_closed. apply List.Forall_forall. intros r Hr.
  apply in_flat_map in Hr as (i & Hi & Hr).
  unfold range in Hi. apply in_map_iff in Hi as (k & <- & Hk). apply in_seq in Hk.
  exists k. split; [unfold RAYS in Hk; lia|].
  pose proof (ray_rules_parent RAYS (Z.of_nat k)) as Hp.
  rewrite List.Forall_forall in Hp. now apply Hp.
Qed.

Lemma is_input_name (k : nat) :
  (k < 7)%nat ->
  existsb (fun r => String.eqb (term_parent (rule_antecedent r))
                               (distance_name (Z.of_nat k)))
          steering_rules = true.
Proof.
  intros Hk.
  do 7 (destruct k as [|k]; [vm_compute; reflexivity|]). lia.
Qed.

Lemma set_inputs_Ok (ds : list Z) : forall (a : nat) (sim : ControlSystemSimulation),
  sim_ctrl sim = steering_system ->
  (a + length ds <= 7)%nat ->
  exists sim',
    for_each (fun entry sim => let '(i, dist) := entry in
                               spec_input_setitem sim (distance_name i) dist)
             (zip (map Z.of_nat (seq a (length ds))) ds) sim
    = Ok sim'
    /\ sim_ctrl sim' = steering_system
    /\ sim_output sim' = sim_output sim
    /\ forall k : nat,
         sim_input sim' !! distance_name (Z.of_nat k)
         = if decide (a <= k < a + length ds)%nat
           then ds !! (k - a)%nat
           else sim_input sim !! distance_name (Z.of_nat k).
Proof.
  induction ds as [|d ds IH]; intros a sim Hc Hlen; cbn [length seq map zip zip_with for_each].
  - exists sim. repeat split; auto. intros k.
    destruct (decide _) as [Hr|_]; [cbn in Hr; lia|reflexivity].
  - unfold spec_input_setitem at 1. rewrite Hc. cbn [cs_rules steering_system].
    rewrite is_input_name by (cbn in Hlen; lia). cbn [rbind].
    set (sim1 := {| sim_ctrl := _; sim_input := _; sim_output := _ |}).
    destruct (IH (S a) sim1) as (sim' & E & Hc' & Ho & Hi).
    { reflexivity. }
    { cbn in Hlen. lia. }
    exists sim'. split; [exact E|]. split; [exact Hc'|]. split; [exact Ho|].
    intros k. rewrite Hi. subst sim1. cbn [sim_input length].
    destruct (decide (k = a)) as [->|Hne].
    + destruct (decide (S a <= a < S a + length ds)%nat) as [Hr|_]; [lia|].
      destruct (decide (a <= a < a + S (length ds))%nat) as [_|Hr]; [|lia].
      rewrite lookup_insert_eq, Nat.sub_diag. reflexivity.
    + rewrite lookup_insert_ne.
      2:{ intros E'. apply distance_name_inj in E'. lia. }
      destruct (decide (S a <= k < S a + length ds)%nat) as [Hr|Hr],
               (decide (a <= k < a + S (length ds))%nat) as [Hr'|Hr']; try lia.
      * replace (k - a)%nat with (S (k - S a)) by lia. reflexivity.
      * reflexivity.
Qed.

Lemma input_of_lookup (ds : list Z) : forall (a k : nat),
  (list_to_map (map (fun entry : Z * Z => (distance_name (fst entry), snd entry))
                    (zip (map Z.of_nat (seq a (length ds))) ds)) : gmap string Z)
    !! distance_name (Z.of_nat k)
  = if decide (a <= k < a + length ds)%nat then ds !! (k - a)%nat else None.
Proof.
  induction ds as [|d ds IH]; intros a k;
    cbn [length seq map zip zip_with list_to_map fst snd].
  - destruct (decide _) as [Hr|_]; [cbn in Hr; lia|]. apply lookup_empty.
  - rewrite list_to_map_cons. destruct (decide (k = a)) as [->|Hne].
    + rewrite lookup_insert_eq.
      destruct (decide (a <= a < a + S (length ds))%nat) as [_|Hr]; [|lia].
      rewrite Nat.sub_diag. reflexivity.
    + rewrite lookup_insert_ne.
      2:{ intros E'. apply distance_name_inj in E'. lia. }
      rewrite IH.
      destruct (decide (S a <= k < S a + length ds)%nat) as [Hr|Hr],
               (decide (a <= k < a + S (length ds))%nat) as [Hr'|Hr']; try lia.
      * replace (k - a)%nat with (S (k - S a)) by lia. reflexivity.
      * reflexivity.
Qed.

Lemma firing_strength_ext (m1 m2 : gmap string Z) (rules : list Rule) :
  Forall (fun r => m1 !! term_parent (rule_antecedent r)
                   = m2 !! term_parent (rule_antecedent r)) rules ->
  map_result (firing_strength m1) rules = map_result (firing_strength m2) rules.
Proof.
  induction 1 as [|r l Hr _ IH]; cbn [map_result].
  - reflexivity.
  - unfold firing_strength at 1 3. rewrite Hr, IH. reflexivity.
Qed.

Lemma firing_strength_total (m : gmap string Z) (rules : list Rule) :
  Forall (fun r => is_Some (m !! term_parent (rule_antecedent r))) rules ->
  exists fired, map_result (firing_strength m) rules = Ok fired.
Proof.
  induction 1 as [|r l [v Hr] _ [fired IH]]; cbn [map_result].
  - now exists [].
  - unfold firing_strength at 1. rewrite Hr, IH. cbn [rbind]. eauto.
Qed.

Lemma steering_rules_head :
  exists r rest, steering_rules = r :: rest
    /\ term_parent (rule_consequent r) = "steering"
    /\ term_universe (rule_consequent r) = arange (-90) 91.
Proof.
  rewrite steering_rules_closed.
  change (range RAYS) with (0 :: map Z.of_nat (seq 1 6)).
  cbn [List.flat_map]. unfold ray_rules at 1, append_rules.
  change (0 <? RAYS / 2) with true. cbv iota. eval_getitem.
  cbn [app]. eexists _, _. split; [reflexivity|]. split; reflexivity.
Qed.

(** On a configured car whose distance vector has [RAYS] entries, the
    decision step returns the value of [evaluate] on that vector and
    the stored speed. *)
Lemma decide_step_evaluate (c : Car) :
  configured c ->
  Z.of_nat (length (distances c)) = RAYS ->
  exists v c',
    evaluate (distances c) = Ok v
    /\ decide_step c = Ok ((v, speed c), c')
    /\ configured c'.
Proof.
  intros Hc Hlen.
  assert (Hl7 : length (distances c) = 7%nat) by (unfold RAYS in Hlen; lia).
  unfold fuzzy_logic_controller, enumerate, range.
  rewrite Nat2Z.id. cbn [sim_input_setitem sim_compute spec_engine].
  destruct (set_inputs_Ok (distances c) 0 (steering c) Hc) as (sim1 & E & Hc1 & Ho & Hi);
    [lia|].
  rewrite E. cbn [rbind].
  assert (Hagree : Forall (fun r => sim_input sim1 !! term_parent (rule_antecedent r)
                     = input_of (distances c) !! term_parent (rule_antecedent r))
                     steering_rules).
  { eapply Forall_impl; [exact steering_rules_parent|].
    intros r (k & Hk & ->). rewrite Hi. unfold input_of, enumerate, range.
    rewrite Nat2Z.id, input_of_lookup.
    destruct (decide _) as [_|Hr]; [reflexivity|lia]. }
  assert (Hsome : Forall (fun r => is_Some (input_of (distances c)
                                     !! term_parent (rule_antecedent r)))
                    steering_rules).
  { eapply Forall_impl; [exact steering_rules_parent|].
    intros r (k & Hk & ->). unfold input_of, enumerate, range.
    rewrite Nat2Z.id, input_of_lookup.
    destruct (decide _) as [_|Hr]; [|lia].
    apply lookup_lt_is_Some. lia. }
  destruct (firing_strength_total _ _ Hsome) as [fired Hf].
  unfold evaluate. rewrite Hlen, Z.eqb_refl, Hf. cbn [rbind].
  unfold spec_compute. rewrite Hc1. cbn [cs_rules steering_system].
  rewrite (firing_strength_ext _ _ _ Hagree), Hf. cbn [rbind].
  destruct steering_rules_head as (r & rest & Hrules & Hp & Hu).
  rewrite !Hrules. cbv iota. rewrite Hp, Hu. cbn [rbind].
  cbn [set_steering steering sim_output speed].
  unfold dict_getitem. rewrite lookup_insert_eq. cbn [rbind].
  eexists _, _. split; [reflexivity|]. split; [reflexivity|].
  unfold configured. reflexivity.
Qed.

Lemma evaluate_bounds (ds : list Z) (v : Q) :
  evaluate ds = Ok v -> (-90 <= v <= 90)%Q.
Proof.
  unfold evaluate. destruct (_ =? _); [|discriminate].
  destruct (map_result _ _) as [fired|e]; [|discriminate].
  cbn [rbind]. intros E. injection E as <-.
  apply (centroid_bounds (-90) 90).
  - lia.
  - apply aggregated_nonneg.
  - exact (arange_bounds (-90) 91).
Qed.

(** C1: on a configured car whose distances all equal the maximum range
    600, no rule fires (every firing strength is 0) and the decision step
    returns the steering value 0. *)
Theorem all_far_goes_straight (c : Car) :
  configured c ->
  distances c = replicate (Z.to_nat RAYS) 600 ->
  exists fired c',
    map_result (firing_strength (input_of (distances c))) steering_rules = Ok fired
    /\ Forall (fun s => s = 0%Q) fired
    /\ decide_step c = Ok ((0%Q, speed c), c').
Proof.
  intros Hc Hds.
  destruct (decide_step_evaluate c Hc) as (v & c' & Hev & Hstep & _).
  { rewrite Hds. reflexivity. }
  rewrite Hds in Hev |- *.
  assert (Hf : map_result (firing_strength (input_of (replicate (Z.to_nat RAYS) 600)))
                          steering_rules
               = Ok (replicate 13 0%Q)) by (vm_compute; reflexivity).
  exists (replicate 13 0%Q), c'. split; [exact Hf|]. split.
  - repeat constructor.
  - assert (Hz : evaluate (replicate (Z.to_nat RAYS) 600) = Ok 0%Q)
      by (vm_compute; reflexivity).
    rewrite Hz in Hev. injection Hev as <-. exact Hstep.
Qed.

(** C6: on a configured car whose distance vector has [RAYS] entries,
    each between 0 and 600, a steering value returned by the decision
    step lies between -90 and 90. *)
Theorem steering_delta_bounded (c c' : Car) (delta : Q) (v : Z) :
  configured c ->
  distances_ok c ->
  decide_step c = Ok ((delta, v), c') ->
  (-90 <= delta <= 90)%Q.
Proof.
  intros Hc [Hlen _] Hstep.
  destruct (decide_step_evaluate c Hc Hlen) as (v0 & c0 & Hev & Hstep0 & _).
  rewrite Hstep0 in Hstep. injection Hstep as <- _ _.
  exact (evaluate_bounds _ _ Hev).
Qed.

(** C7: two configured cars with the same distance vector of [RAYS]
    entries and the same speed get the same steering value and speed
    from the decision step, whatever inputs and outputs their simulation
    objects hold from earlier calls. *)
Theorem decision_deterministic (c1 c2 : Car) :
  configured c1 ->
  configured c2 ->
  Z.of_nat (length (distances c1)) = RAYS ->
  distances c1 = distances c2 ->
  speed c1 = speed c2 ->
  exists delta v c1' c2',
    decide_step c1 = Ok ((delta, v), c1')
    /\ decide_step c2 = Ok ((delta, v), c2').
Proof.
  intros Hc1 Hc2 Hlen Hds Hsp.
  destruct (decide_step_evaluate c1 Hc1 Hlen) as (v1 & c1' & Hev1 & Hstep1 & _).
  destruct (decide_step_evaluate c2 Hc2) as (v2 & c2' & Hev2 & Hstep2 & _).
  { rewrite <- Hds. exact Hlen. }
  rewrite <- Hds, Hev1 in Hev2. injection Hev2 as <-.
  exists v1, (speed c1), c1', c2'. split; [exact Hstep1|].
  rewrite Hsp. exact Hstep2.
Qed.

(** Calling the decision step again on the car it leaves returns the
    same pair. *)
Lemma decide_step_twice (c : Car) :
  configured c ->
  Z.of_nat (length (distances c)) = RAYS ->
  exists r c' c'',
    decide_step c = Ok (r, c') /\ decide_step c' = Ok (r, c'').
Proof.
  intros Hc Hlen.
  destruct (decide_step_evaluate c Hc Hlen) as (v & c' & Hev & Hstep & Hc').
  pose proof (fuzzy_logic_controller_distances (H1 := spec_engine) _ _ _ Hstep)
    as (Hds & _ & Hsp).
  destruct (decide_step_evaluate c' Hc') as (v' & c'' & Hev' & Hstep' & _).
  { rewrite Hds. exact Hlen. }
  rewrite Hds, Hev in Hev'. injection Hev' as <-.
  exists (v, speed c), c', c''. split; [exact Hstep|].
  rewrite Hstep', Hsp. reflexivity.
Qed.

End Decision.

(** ** The running program on the modelled engine *)

Section Program.
Context `{MathModule} `{Pygame}.

Lemma Car_init_configured image0 initial_position (car : Car) :
  Car_init image0 initial_position = Ok car -> configured car.
Proof.
  unfold Car_init, setup_fuzzy_control, configured, steering_system, steering_rules.
  rewrite make_rules_closed_form. cbn [rbind]. intros E. injection E as <-.
  reflexivity.
Qed.

Lemma update_Ok keys screen (car : Car) :
  configured car ->
  distances_ok car ->
  exists car' screen',
    update (H1 := spec_engine) keys screen car = Ok (car', screen')
    /\ configured car'.
Proof.
  intros Hc [Hlen Hall].
  destruct (xorb (K_SPACE keys) (autopilot car)) eqn:Hx.
  - unfold update.
    set (self0 := if K_SPACE keys then _ else _).
    assert (Ha : self0 = set_autopilot car true).
    { subst self0. destruct (K_SPACE keys), (autopilot car) eqn:Hau;
        try discriminate; cbn; try reflexivity.
      destruct car; cbn in *; subst; reflexivity. }
    rewrite Ha. cbn [negb autopilot set_autopilot].
    destruct (check_collision_Ok screen (set_autopilot car true) Hlen)
      as (mid & s1 & Ec & Hfr & Hmid).
    rewrite Ec. cbn [rbind].
    assert (Hcm : configured mid) by (rewrite Hfr; exact Hc).
    destruct (decide_step_evaluate mid Hcm (proj1 Hmid)) as (v & mid' & _ & Hstep & Hc').
    rewrite Hstep. cbn [rbind]. eexists _, _. split; [reflexivity|]. exact Hc'.
  - unfold update.
    destruct (K_SPACE keys), (autopilot car) eqn:Hau; try discriminate;
      cbn [negb autopilot set_autopilot]; try rewrite Hau; cbn [negb];
      eexists _, _; (split; [reflexivity|]);
      destruct (K_LEFT keys), (K_RIGHT keys), (K_UP keys), (K_DOWN keys); exact Hc.
Qed.

Lemma reachable_configured (car : Car) :
  reachable (H1 := spec_engine) car -> configured car /\ distances_ok car.
Proof.
  induction 1 as [image0 pos car Hi | keys screen car car' screen' Hr [Hc Hok] Hu].
  - split; [exact (Car_init_configured _ _ _ Hi)|].
    unfold distances_ok. rewrite (Car_init_distances _ _ _ Hi). split.
    + reflexivity.
    + unfold RAYS. cbn. repeat constructor; lia.
  - split.
    + destruct (update_Ok keys screen car Hc Hok) as (c1 & s1 & E & Hc1).
      rewrite E in Hu. injection Hu as <- _. exact Hc1.
    + exact (update_distances_ok (H1 := spec_engine) _ _ _ _ _ Hok Hu).
Qed.

End Program.

(** ** Examples and instances of the theorems *)

Example cast_ray_wall_ahead :
  cast_ray (H := axis_math) wall_screen (510, 400)%Q 0 600 = 10.
Proof. vm_compute. reflexivity. Qed.

Example cast_ray_leaves_screen :
  cast_ray (H := axis_math) wall_screen (510, 400)%Q 90 600 = 600.
Proof. vm_compute. reflexivity. Qed.

Example cast_ray_out_of_range :
  cast_ray (H := axis_math) wall_screen (510, 400)%Q 0 8 = 8.
Proof. vm_compute. reflexivity. Qed.

Lemma cast_ray_blocked_start_witness :
  cast_ray (H := axis_math) wall_screen (600, 400)%Q 45 600 = 0.
Proof.
  apply (cast_ray_blocked_start (H := axis_math) wall_screen 600 400 45 600).
  - lia.
  - reflexivity.
  - reflexivity.
Defined.

Lemma make_rules_RAYS : make_rules RAYS = Ok steering_rules.
Proof. unfold steering_rules. now rewrite make_rules_closed_form. Qed.

Lemma center_rule_hard_right_witness :
  map rule_shape (rules_of_ray (RAYS / 2) steering_rules)
  = [ (distance_name (RAYS / 2), "close", "hard_right") ].
Proof.
  apply (center_rule_hard_right RAYS steering_rules).
  - reflexivity.
  - exact make_rules_RAYS.
Defined.

Lemma side_rules_witness :
  (forall i, 0 <= i < RAYS / 2 ->
     map rule_shape (rules_of_ray i steering_rules)
     = [ (distance_name i, "close", "right");
         (distance_name i, "medium", "slight_right") ])
  /\ (forall i, RAYS / 2 < i < RAYS ->
        map rule_shape (rules_of_ray i steering_rules)
        = [ (distance_name i, "close", "left");
            (distance_name i, "medium", "slight_left") ])
  /\ Forall (fun r => term_label (rule_antecedent r) <> "far") steering_rules.
Proof.
  apply (side_rules RAYS steering_rules). exact make_rules_RAYS.
Defined.

Lemma setup_accepts_even_ray_count_witness :
  exists inputs rules,
    setup_fuzzy_control 6
    = Ok (inputs, {| cs_rules := rules |}, new_simulation {| cs_rules := rules |})
    /\ map rule_shape (rules_of_ray (6 / 2) rules)
       = [ (distance_name (6 / 2), "close", "hard_right") ].
Proof.
  apply (setup_accepts_even_ray_count 6).
  - reflexivity.
  - reflexivity.
Defined.

Lemma initial_car_constructed :
  @Car_init plain_pygame (80, 40) (500, 400) = Ok initial_car.
Proof.
  unfold Car_init, setup_fuzzy_control. rewrite make_rules_RAYS. reflexivity.
Qed.

Lemma distances_invariant_witness :
  distances_ok initial_car
  /\ forall screen, exists car' screen',
       check_collision (H := axis_math) screen initial_car = Ok (car', screen')
       /\ distances_ok car'.
Proof.
  apply (distances_invariant (H := axis_math) (H1 := spec_engine) initial_car).
  apply (@reachable_init axis_math plain_pygame spec_engine (80, 40) (500, 400)).
  unfold Car_init, setup_fuzzy_control. rewrite make_rules_RAYS. reflexivity.
Defined.

Lemma configured_initial_car : configured initial_car.
Proof. reflexivity. Qed.

Lemma fuzzy_logic_controller_frame_witness :
  match fuzzy_logic_controller (H1 := spec_engine) near_left_car with
  | Ok ((delta, v), self') =>
      v = speed near_left_car
      /\ speed self' = speed near_left_car
      /\ angle self' = angle near_left_car
      /\ rect self' = rect near_left_car
      /\ distances self' = distances near_left_car
      /\ image self' = image near_left_car
      /\ autopilot self' = autopilot near_left_car
  | Raise _ => False
  end.
Proof.
  destruct (fuzzy_logic_controller (H1 := spec_engine) near_left_car)
    as [[[delta v] self']|e] eqn:E.
  - exact (fuzzy_logic_controller_frame (H1 := spec_engine) _ _ _ _ E).
  - destruct (decide_step_evaluate near_left_car eq_refl eq_refl)
      as (v & c' & _ & E' & _).
    rewrite E' in E. discriminate E.
Defined.

Lemma all_far_goes_straight_witness :
  exists fired c',
    map_result (firing_strength (input_of (distances far_car))) steering_rules
    = Ok fired
    /\ Forall (fun s => s = 0%Q) fired
    /\ fuzzy_logic_controller (H1 := spec_engine) far_car
       = Ok ((0%Q, speed far_car), c').
Proof.
  apply (all_far_goes_straight far_car).
  - reflexivity.
  - reflexivity.
Defined.

Lemma steering_delta_bounded_witness :
  match fuzzy_logic_controller (H1 := spec_engine) near_left_car with
  | Ok ((delta, _), _) => (-90 <= delta <= 90)%Q
  | Raise _ => False
  end.
Proof.
  destruct (fuzzy_logic_controller (H1 := spec_engine) near_left_car)
    as [[[delta v] self']|e] eqn:E.
  - apply (steering_delta_bounded near_left_car self' delta v).
    + reflexivity.
    + split; [reflexivity|]. cbn. repeat constructor; lia.
    + exact E.
  - destruct (decide_step_evaluate near_left_car eq_refl eq_refl)
      as (v & c' & _ & E' & _).
    rewrite E' in E. discriminate E.
Defined.

Lemma decision_deterministic_witness :
  exists delta v c1' c2',
    fuzzy_logic_controller (H1 := spec_engine) near_left_car = Ok ((delta, v), c1')
    /\ fuzzy_logic_controller (H1 := spec_engine) used_near_left_car
       = Ok ((delta, v), c2').
Proof.
  apply (decision_deterministic near_left_car used_near_left_car).
  - reflexivity.
  - reflexivity.
  - reflexivity.
  - reflexivity.
  - reflexivity.
Defined.

Example near_left_turns_right :
  exists v c',
    fuzzy_logic_controller (H1 := spec_engine) near_left_car = Ok ((v, 10), c')
    /\ (0 < v)%Q.
Proof.
  destruct (decide_step_evaluate near_left_car eq_refl eq_refl) as (v & c' & Hev & E & _).
  exists v, c'. split; [exact E|].
  vm_compute in Hev. injection Hev as <-. reflexivity.
Qed.

Example center_close_hard_right :
  exists v, evaluate [600; 600; 600; 5; 600; 600; 600] = Ok v /\ (v == 60)%Q.
Proof. eexists. split; [vm_compute; reflexivity|]. reflexivity. Qed.

Example wrong_length_rejected :
  evaluate [600; 600; 600; 600; 600; 600] = Raise ValueError.
Proof. reflexivity. Qed.

(** * Further properties of the code *)

(** ** Ray casting: range, screen edge, empty track *)

Section CastRayMore.
Context `{MathModule}.

Lemma cast_ray_loop_more_fuel screen start_pos angle (n : nat) : forall (m : nat) d0 d,
  cast_ray_loop screen start_pos angle n d0 = Some d ->
  (n <= m)%nat ->
  cast_ray_loop screen start_pos angle m d0 = Some d.
Proof.
  induction n as [|n IH]; intros m d0 d E Hle.
  - discriminate.
  - destruct m as [|m]; [lia|].
    rewrite cast_ray_loop_step in E |- *.
    destruct (in_bounds screen (ray_point start_pos angle d0)); [|discriminate].
    destruct (is_white screen (ray_point start_pos angle d0)); [exact E|].
    apply IH; [exact E|lia].
Qed.

(** X1: a hit found within the range does not depend on the range: with any
    larger [max_distance] the ray caster returns the same distance. *)
Theorem cast_ray_hit_independent_of_range screen start_pos angle (R R' d : Z) :
  cast_ray screen start_pos angle R = d ->
  d < R ->
  R <= R' ->
  cast_ray screen start_pos angle R' = d.
Proof.
  unfold cast_ray. intros E Hlt Hle.
  destruct (cast_ray_loop screen start_pos angle (Z.to_nat R) 0) as [d'|] eqn:El; [|lia].
  subst d'.
  rewrite (cast_ray_loop_more_fuel _ _ _ _ (Z.to_nat R') _ _ El); [reflexivity|lia].
Qed.

(** X2: when the truncated start point is off the screen the loop breaks at
    once: the ray caster returns [max_distance], whatever is drawn. *)
Theorem cast_ray_start_off_screen screen x y angle (R : Z) :
  in_bounds screen (py_int x, py_int y) = false ->
  cast_ray screen (x, y) angle R = R.
Proof.
  intros Hout. unfold cast_ray.
  destruct (Z.to_nat R) as [|n]; [reflexivity|].
  rewrite cast_ray_loop_step, ray_point_start, Hout. reflexivity.
Qed.

(** X3: on a screen none of whose pixels is white, every ray returns
    [max_distance]. *)
Theorem cast_ray_no_white_pixel screen start_pos angle (R : Z) :
  (forall p, in_bounds screen p = true -> is_white screen p = false) ->
  cast_ray screen start_pos angle R = R.
Proof.
  intros Hblack. unfold cast_ray.
  destruct (cast_ray_loop screen start_pos angle (Z.to_nat R) 0) as [d|] eqn:El;
    [|reflexivity].
  apply cast_ray_loop_Some in El as (_ & _ & Hin & Hw).
  rewrite (Hblack _ Hin) in Hw. discriminate.
Qed.

End CastRayMore.

Lemma cast_ray_hit_independent_of_range_witness :
  cast_ray (H := axis_math) wall_screen (510, 400)%Q 0 600 = 10.
Proof.
  apply (cast_ray_hit_independent_of_range (H := axis_math)
           wall_screen (510, 400)%Q 0 20 600 10).
  - vm_compute. reflexivity.
  - lia.
  - lia.
Defined.

Lemma cast_ray_start_off_screen_witness :
  cast_ray (H := axis_math) wall_screen (1005, 400)%Q 180 600 = 600.
Proof.
  apply (cast_ray_start_off_screen (H := axis_math) wall_screen 1005 400 180 600).
  reflexivity.
Defined.

Lemma cast_ray_no_white_pixel_witness :
  cast_ray (H := axis_math) black_screen (500, 400)%Q 0 600 = 600.
Proof.
  apply (cast_ray_no_white_pixel (H := axis_math) black_screen (500, 400)%Q 0 600).
  intros p _. reflexivity.
Defined.

(** ** The car: what one update does, and what a run keeps *)

Ltac car_fields :=
  cbn [set_image set_rect set_angle set_autopilot set_distances set_steering
       original_image image rect speed angle autopilot distances distances_input
       steering_ctrl steering].

(** Names the value of the outermost [let] of the goal, keeping the
    other bindings as they are. *)
Ltac pull_let_as v :=
  match goal with
  | |- context C [let x := ?a in @?b x] =>
      pose (v := a);
      let g := context C [b v] in
      change g; cbv beta
  end.

Section CarMore.
Context `{MathModule} `{Pygame} `{SkFuzzy}.

Lemma for_each_app {A St : Type} (body : A -> St -> result St) (l1 l2 : list A) :
  forall s,
    for_each body (l1 ++ l2) s
    = rbind (for_each body l1 s) (for_each body l2).
Proof.
  induction l1 as [|x l1 IH]; intros s; cbn [app for_each rbind].
  - reflexivity.
  - destruct (body x s) as [s'|e]; cbn [rbind]; [apply IH|reflexivity].
Qed.

(** X4: a distances list with fewer than [RAYS] entries makes the collision
    check raise IndexError. *)
Theorem check_collision_short_list screen (car : Car) :
  Z.of_nat (length (distances car)) < RAYS ->
  check_collision screen car = Raise IndexError.
Proof.
  intros Hshort. unfold check_collision, range.
  set (n := length (distances car)).
  assert (Hn : (n < 7)%nat) by (unfold RAYS in Hshort; lia).
  replace (Z.to_nat RAYS) with (n + S (6 - n))%nat by (unfold RAYS; lia).
  rewrite seq_app, map_app, for_each_app.
  destruct (check_collision_loop n 0 car screen) as (car1 & s1 & E & _ & Hl & _);
    [subst n; lia|].
  rewrite E. cbn [rbind seq map for_each].
  unfold check_collision_ray at 1, list_setitem.
  rewrite Hl. fold n.
  destruct (Z.leb_spec 0 (Z.of_nat (0 + n))); [|lia].
  destruct (Z.ltb_spec (Z.of_nat (0 + n)) (Z.of_nat n)); [lia|].
  reflexivity.
Qed.

(** X5: with at least [RAYS] entries the collision check completes and
    changes nothing of the car but the first [RAYS] entries of the
    distances list: the other attributes, the length of the list and
    the entries from index [RAYS] on stay as they were. *)
Theorem check_collision_changes_only_distances screen (car : Car) :
  RAYS <= Z.of_nat (length (distances car)) ->
  exists car' screen',
    check_collision screen car = Ok (car', screen')
    /\ car' = set_distances car (distances car')
    /\ length (distances car') = length (distances car)
    /\ forall j : nat, (7 <= j)%nat -> distances car' !! j = distances car !! j.
Proof.
  intros Hlen. unfold check_collision, range.
  destruct (check_collision_loop (Z.to_nat RAYS) 0 car screen)
    as (car' & s' & E & Hfr & Hl & Hent).
  { unfold RAYS in *. lia. }
  exists car', s'. split; [exact E|]. split; [exact Hfr|]. split; [exact Hl|].
  intros j Hj.
  destruct (distances car' !! j) as [d|] eqn:Ej.
  - symmetry. apply (Hent j d Ej). unfold RAYS. lia.
  - symmetry. apply lookup_ge_None. apply lookup_ge_None in Ej. lia.
Qed.

Lemma fuzzy_logic_controller_only_steering (self self' : Car) (r : Q * Z) :
  fuzzy_logic_controller self = Ok (r, self') ->
  self' = set_steering self (steering self') /\ snd r = speed self.
Proof.
  unfold fuzzy_logic_controller. intros E.
  destruct (for_each _ _ _) as [sim1|e]; [|discriminate].
  cbn [rbind] in E.
  destruct (sim_compute sim1) as [sim2|e]; [|discriminate].
  cbn [rbind] in E.
  destruct (dict_getitem _ _) as [out|e]; [|discriminate].
  cbn [rbind] in E. injection E as <- <-. split; reflexivity.
Qed.

Lemma autopilot_on (keys : Keys) (self : Car) :
  xorb (K_SPACE keys) (autopilot self) = true ->
  (if K_SPACE keys then set_autopilot self (negb (autopilot self)) else self)
  = set_autopilot self true.
Proof.
  intros Hx. destruct (K_SPACE keys), (autopilot self) eqn:Hau;
    try discriminate; cbn; try reflexivity.
  destruct self; cbn in *; subst; reflexivity.
Qed.

Lemma autopilot_off (keys : Keys) (self : Car) :
  xorb (K_SPACE keys) (autopilot self) = false ->
  (if K_SPACE keys then set_autopilot self (negb (autopilot self)) else self)
  = set_autopilot self false.
Proof.
  intros Hx. destruct (K_SPACE keys), (autopilot self) eqn:Hau;
    try discriminate; cbn; try reflexivity.
  destruct self; cbn in *; subst; reflexivity.
Qed.

Lemma update_manual_facts keys screen (car : Car) :
  xorb (K_SPACE keys) (autopilot car) = false ->
  exists car',
    update keys screen car = Ok (car', screen)
    /\ autopilot car' = false
    /\ distances car' = distances car
    /\ steering car' = steering car
    /\ speed car' = speed car
    /\ (angle car' == angle car + (if K_LEFT keys then 5 else 0)
                      - (if K_RIGHT keys then 5 else 0))%Q
    /\ original_image car' = original_image car
    /\ image car' = transform_rotate (original_image car) (angle car').
Proof.
  intros Hx. cbv delta [update]. cbv beta.
  pull_let_as s0.
  assert (Hs0 : s0 = set_autopilot car false) by (apply autopilot_off; exact Hx).
  clearbody s0. subst s0.
  change (negb (autopilot (set_autopilot car false))) with true. cbv iota.
  pull_let_as s1. pull_let_as s2. pull_let_as s3. pull_let_as s4.
  pull_let_as s5. pull_let_as s6.
  exists s6. split; [reflexivity|].
  assert (H6 : s6 = set_rect s5 (rect s6))
    by (subst s6; destruct (K_DOWN keys); [reflexivity | destruct s5; reflexivity]).
  assert (H5 : s5 = set_rect s4 (rect s5))
    by (subst s5; destruct (K_UP keys); [reflexivity | destruct s4; reflexivity]).
  assert (H4 : s4 = set_rect s3 (rect s4)) by reflexivity.
  assert (H3 : s3 = set_image s2 (transform_rotate (original_image s2) (angle s2)))
    by reflexivity.
  assert (H2 : s2 = set_angle s1 (angle s2))
    by (subst s2; destruct (K_RIGHT keys); [reflexivity | destruct s1; reflexivity]).
  assert (H1' : s1 = set_angle (set_autopilot car false) (angle s1))
    by (subst s1; destruct (K_LEFT keys); [reflexivity | destruct car; reflexivity]).
  assert (Ha2 : angle s2 = if K_RIGHT keys then (angle s1 - 5)%Q else angle s1)
    by (subst s2; destruct (K_RIGHT keys); reflexivity).
  assert (Ha1 : angle s1 = if K_LEFT keys then (angle car + 5)%Q else angle car)
    by (subst s1; destruct (K_LEFT keys); reflexivity).
  clearbody s1 s2 s3 s4 s5 s6.
  rewrite H6, H5, H4, H3. car_fields. rewrite H2. car_fields.
  rewrite Ha2, H1'. car_fields. rewrite Ha1.
  destruct (K_LEFT keys), (K_RIGHT keys); repeat split; ring.
Qed.

(** X6: while the autopilot is off, [update] cannot raise: it runs neither
    the collision check nor the decision step, leaves the screen, the
    distances, the simulation object and the speed as they were, and
    turns the heading by 5 degrees per pressed arrow key, left and
    right together cancelling. *)
Theorem update_manual_mode keys screen (car : Car) :
  xorb (K_SPACE keys) (autopilot car) = false ->
  exists car',
    update keys screen car = Ok (car', screen)
    /\ autopilot car' = false
    /\ distances car' = distances car
    /\ steering car' = steering car
    /\ speed car' = speed car
    /\ (angle car' == angle car + (if K_LEFT keys then 5 else 0)
                      - (if K_RIGHT keys then 5 else 0))%Q.
Proof.
  intros Hx.
  destruct (update_manual_facts keys screen car Hx)
    as (car' & E & Hau & Hd & Hs & Hsp & Ha & _).
  exists car'. repeat split; assumption.
Qed.

Lemma update_autopilot_inversion keys screen (car car' : Car) screen' :
  xorb (K_SPACE keys) (autopilot car) = true ->
  update keys screen car = Ok (car', screen') ->
  exists mid delta mid',
    check_collision screen (set_autopilot car true) = Ok (mid, screen')
    /\ fuzzy_logic_controller mid = Ok ((delta, speed car), mid')
    /\ mid = set_distances (set_autopilot car true) (distances mid)
    /\ mid' = set_steering mid (steering mid')
    /\ angle car' = (angle car + delta)%Q
    /\ distances car' = distances mid
    /\ steering car' = steering mid'
    /\ speed car' = speed car
    /\ autopilot car' = true
    /\ original_image car' = original_image car
    /\ image car' = transform_rotate (original_image car) (angle car').
Proof.
  intros Hx E. unfold update in E. rewrite (autopilot_on _ _ Hx) in E.
  cbn [negb autopilot set_autopilot] in E.
  destruct (check_collision screen (set_autopilot car true)) as [[mid s1]|e] eqn:Ec;
    [|discriminate].
  cbn [rbind] in E.
  destruct (fuzzy_logic_controller mid) as [[[delta v] mid']|e] eqn:Ef; [|discriminate].
  cbn [rbind] in E. injection E as <- <-.
  pose proof (check_collision_frame _ _ _ _ Ec) as Hmid.
  destruct (fuzzy_logic_controller_only_steering _ _ _ Ef) as [Hmid' Hv].
  cbn [snd] in Hv. subst v.
  assert (Hsp : speed mid = speed car) by (rewrite Hmid; reflexivity).
  exists mid, delta, mid'. rewrite <- Hsp.
  split; [reflexivity|]. split; [exact Ef|]. split; [exact Hmid|].
  split; [exact Hmid'|].
  rewrite Hmid'. cbn. rewrite Hmid. cbn. repeat split.
Qed.

(** X7: while the autopilot is on, a completed [update] has measured the
    distances on this tick's screen, taken the decision on them, and
    turned the heading by exactly the returned steering delta; speed
    and the simulation's control system are those of the decision. *)
Theorem update_autopilot_mode keys screen (car car' : Car) screen' :
  xorb (K_SPACE keys) (autopilot car) = true ->
  update keys screen car = Ok (car', screen') ->
  exists mid delta mid',
    check_collision screen (set_autopilot car true) = Ok (mid, screen')
    /\ fuzzy_logic_controller mid = Ok ((delta, speed car), mid')
    /\ angle car' = (angle car + delta)%Q
    /\ distances car' = distances mid
    /\ steering car' = steering mid'
    /\ speed car' = speed car
    /\ autopilot car' = true.
Proof.
  intros Hx E.
  destruct (update_autopilot_inversion _ _ _ _ _ Hx E)
    as (mid & delta & mid' & Ec & Ef & _ & _ & Ha & Hd & Hs & Hsp & Hau & _).
  exists mid, delta, mid'. repeat split; assumption.
Qed.

(** X8: with [RAYS] distances the collision check cannot raise, so an
    [update] in autopilot mode raises only what the decision step
    raises on the freshly measured car. *)
Theorem update_autopilot_error keys screen (car : Car) (e : exn) :
  Z.of_nat (length (distances car)) = RAYS ->
  xorb (K_SPACE keys) (autopilot car) = true ->
  update keys screen car = Raise e ->
  exists mid screen1,
    check_collision screen (set_autopilot car true) = Ok (mid, screen1)
    /\ fuzzy_logic_controller mid = Raise e.
Proof.
  intros Hlen Hx E. unfold update in E. rewrite (autopilot_on _ _ Hx) in E.
  cbn [negb autopilot set_autopilot] in E.
  destruct (check_collision_Ok screen (set_autopilot car true) Hlen)
    as (mid & s1 & Ec & _ & _).
  rewrite Ec in E. cbn [rbind] in E.
  exists mid, s1. split; [exact Ec|].
  destruct (fuzzy_logic_controller mid) as [[[delta v] mid']|e'].
  - discriminate.
  - cbn [rbind] in E. congruence.
Qed.

Lemma update_attributes keys screen (car car' : Car) screen' :
  update keys screen car = Ok (car', screen') ->
  speed car' = speed car
  /\ original_image car' = original_image car
  /\ autopilot car' = xorb (K_SPACE keys) (autopilot car)
  /\ image car' = transform_rotate (original_image car) (angle car').
Proof.
  intros E. destruct (xorb (K_SPACE keys) (autopilot car)) eqn:Hx.
  - destruct (update_autopilot_inversion _ _ _ _ _ Hx E)
      as (mid & delta & mid' & _ & _ & _ & _ & _ & _ & _ & Hsp & Hau & Ho & Hi).
    repeat split; assumption.
  - destruct (update_manual_facts keys screen car Hx)
      as (c & E' & Hau & _ & _ & Hsp & _ & Ho & Hi).
    rewrite E' in E. injection E as <- _.
    repeat split; assumption.
Qed.

(** X9: the speed is a constant of the program: in every state it reaches,
    the speed is 10. *)
Theorem reachable_speed_constant (car : Car) :
  reachable car -> speed car = 10.
Proof.
  induction 1 as [image0 pos car Hi | keys screen car car' screen' Hr IH Hu].
  - unfold Car_init in Hi.
    destruct (setup_fuzzy_control RAYS) as [[[i c] s]|e]; [|discriminate].
    cbn [rbind] in Hi. injection Hi as <-. reflexivity.
  - destruct (update_attributes _ _ _ _ _ Hu) as (Hsp & _). congruence.
Qed.


(** X11: space toggles the autopilot on every tick it is down: after a run,
    the flag is the initial flag flipped once per tick with space
    pressed. *)
Theorem run_autopilot_parity (ticks : list (Keys * Surface)) : forall car car' : Car,
  run ticks car = Ok car' ->
  autopilot car'
  = fold_left (fun flag tick => xorb (K_SPACE (fst tick)) flag) ticks (autopilot car).
Proof.
  induction ticks as [|[keys screen] ticks IH]; intros car car' E; cbn [run] in E.
  - injection E as <-. reflexivity.
  - destruct (update keys screen car) as [[car1 s1]|e] eqn:Eu; [|discriminate].
    cbn [rbind fst] in E. rewrite (IH _ _ E). cbn [fold_left fst].
    destruct (update_attributes _ _ _ _ _ Eu) as (_ & _ & Hau & _).
    rewrite Hau. reflexivity.
Qed.

End CarMore.

(** ** The rule base: size and unused labels *)

Section RuleBaseMore.

Lemma length_ray_rules (rays i : Z) :
  length (ray_rules rays i) = if i =? rays / 2 then 1%nat else 2%nat.
Proof.
  unfold ray_rules, append_rules. rewrite Z.gtb_ltb.
  destruct (Z.ltb_spec i (rays / 2)), (Z.ltb_spec (rays / 2) i),
    (Z.eqb_spec i (rays / 2)); try lia.
  - eval_getitem. reflexivity.
  - eval_getitem. reflexivity.
  - destruct ((i - rays / 2) * 15 <? 0); eval_getitem; reflexivity.
Qed.

Lemma length_rules_seq (rays : Z) (n : nat) : forall a : nat,
  Z.of_nat (length (List.flat_map (ray_rules rays) (map Z.of_nat (seq a n))))
  = 2 * Z.of_nat n
    - (if (Z.of_nat a <=? rays / 2) && (rays / 2 <? Z.of_nat (a + n)) then 1 else 0).
Proof.
  induction n as [|n IH]; intros a; cbn [seq map List.flat_map].
  - destruct (Z.leb_spec (Z.of_nat a) (rays / 2)),
      (Z.ltb_spec (rays / 2) (Z.of_nat (a + 0))); cbn; lia.
  - rewrite length_app, Nat2Z.inj_add, IH, length_ray_rules.
    destruct (Z.eqb_spec (Z.of_nat a) (rays / 2)),
      (Z.leb_spec (Z.of_nat (S a)) (rays / 2)),
      (Z.ltb_spec (rays / 2) (Z.of_nat (S a + n))),
      (Z.leb_spec (Z.of_nat a) (rays / 2)),
      (Z.ltb_spec (rays / 2) (Z.of_nat (a + S n))); cbn [andb]; lia.
Qed.

(** X12: for every ray count the construction of the rule base completes
    (every label a rule names is defined on its variable); it yields
    [2 * rays - 1] rules, and none when the ray count is not positive. *)
Theorem make_rules_count (rays : Z) :
  exists rules,
    make_rules rays = Ok rules
    /\ Z.of_nat (length rules) = Z.max 0 (2 * rays - 1).
Proof.
  rewrite make_rules_closed_form. eexists. split; [reflexivity|].
  unfold range. rewrite length_rules_seq.
  pose proof (half_bounds rays).
  destruct (Z.leb_spec (Z.of_nat 0) (rays / 2)),
    (Z.ltb_spec (rays / 2) (Z.of_nat (0 + Z.to_nat rays))); cbn [andb]; lia.
Qed.

(** X13: two of the seven steering labels are never concluded: whatever the
    ray count, no rule has the consequent straight or hard_left, and
    every consequent is a term of the steering variable. *)
Theorem unused_steering_labels (rays : Z) (rules : list Rule) :
  make_rules rays = Ok rules ->
  Forall (fun r => term_label (rule_consequent r) <> "straight"
                   /\ term_label (rule_consequent r) <> "hard_left"
                   /\ term_parent (rule_consequent r) = "steering") rules.
Proof.
  intros E. rewrite make_rules_closed_form in E. injection E as <-.
  apply List.Forall_forall. intros r Hr. apply in_flat_map in Hr as (i & _ & Hr).
  unfold ray_rules, append_rules in Hr. rewrite Z.gtb_ltb in Hr. revert Hr.
  destruct (Z.ltb_spec i (rays / 2)); [|destruct (Z.ltb_spec (rays / 2) i)].
  - eval_getitem. intros [<-|[<-|[]]]; cbn; repeat split; discriminate.
  - eval_getitem. intros [<-|[<-|[]]]; cbn; repeat split; discriminate.
  - replace i with (rays / 2) by lia. rewrite Z.sub_diag.
    cbn [Z.mul Z.ltb Z.compare]. eval_getitem.
    intros [<-|[]]; cbn; repeat split; discriminate.
Qed.

End RuleBaseMore.

(** ** scale_image_to_window *)

Section Scaling.







(** X15: an image or a window of height 0 makes the scaling fail with a
    ZeroDivisionError. *)
Theorem scale_image_to_window_zero_height `{PygameScale} (image : Picture)
    (ww wh : Z) :
  snd (get_size image) = 0 \/ wh = 0 ->
  scale_image_to_window image ww wh = None.
Proof.
  intros Hz. unfold scale_image_to_window, scaled_size.
  destruct (get_size image) as [iw ih]. cbn [snd] in Hz.
  destruct Hz as [-> | ->].
  - reflexivity.
  - destruct (py_truediv (inject_Z iw) (inject_Z ih)); reflexivity.
Qed.

End Scaling.

(** ** Instances of the further properties *)

Example scaled_size_track :
  scaled_size (1920, 1080) 1000 800 = Some (1000, 562).
Proof. vm_compute. reflexivity. Qed.

Example scaled_size_tall :
  scaled_size (300, 900) 80 80 = Some (26, 80).
Proof. vm_compute. reflexivity. Qed.

Lemma check_collision_short_list_witness :
  check_collision (H := axis_math) wall_screen short_car = Raise IndexError.
Proof.
  apply (check_collision_short_list (H := axis_math) wall_screen short_car).
  reflexivity.
Defined.

Lemma check_collision_changes_only_distances_witness :
  exists car' screen',
    check_collision (H := axis_math) wall_screen initial_car = Ok (car', screen')
    /\ car' = set_distances initial_car (distances car')
    /\ length (distances car') = length (distances initial_car)
    /\ forall j : nat, (7 <= j)%nat -> distances car' !! j = distances initial_car !! j.
Proof.
  apply (check_collision_changes_only_distances (H := axis_math) wall_screen initial_car).
  vm_compute. discriminate.
Defined.

Lemma update_manual_mode_witness :
  exists car',
    update (H := axis_math) (H1 := spec_engine) left_right_keys wall_screen initial_car
    = Ok (car', wall_screen)
    /\ autopilot car' = false
    /\ distances car' = distances initial_car
    /\ steering car' = steering initial_car
    /\ speed car' = speed initial_car
    /\ (angle car' == angle initial_car + 5 - 5)%Q.
Proof.
  apply (update_manual_mode (H := axis_math) (H1 := spec_engine)
           left_right_keys wall_screen initial_car).
  reflexivity.
Defined.

Lemma update_autopilot_mode_witness :
  match update (H := axis_math) (H1 := spec_engine) space_key wall_screen initial_car with
  | Ok (car', screen') =>
      exists mid delta mid',
        check_collision (H := axis_math) wall_screen (set_autopilot initial_car true)
        = Ok (mid, screen')
        /\ fuzzy_logic_controller (H1 := spec_engine) mid
           = Ok ((delta, speed initial_car), mid')
        /\ angle car' = (angle initial_car + delta)%Q
        /\ distances car' = distances mid
        /\ steering car' = steering mid'
        /\ speed car' = speed initial_car
        /\ autopilot car' = true
  | Raise _ => False
  end.
Proof.
  destruct (update (H := axis_math) (H1 := spec_engine) space_key wall_screen initial_car)
    as [[car' screen']|e] eqn:E.
  - apply (update_autopilot_mode (H := axis_math) (H1 := spec_engine)
             space_key wall_screen initial_car car' screen').
    + reflexivity.
    + exact E.
  - destruct (update_Ok (H := axis_math) space_key wall_screen initial_car)
      as (c & s & E' & _).
    + reflexivity.
    + split; [reflexivity|]. cbn. repeat constructor; lia.
    + rewrite E' in E. discriminate E.
Defined.

Lemma update_autopilot_error_witness :
  exists mid screen1,
    check_collision (H := axis_math) wall_screen (set_autopilot initial_car true)
    = Ok (mid, screen1)
    /\ fuzzy_logic_controller (H1 := failing_engine) mid = Raise ValueError.
Proof.
  apply (update_autopilot_error (H := axis_math) (H1 := failing_engine)
           space_key wall_screen initial_car ValueError).
  - reflexivity.
  - reflexivity.
  - vm_compute. reflexivity.
Defined.

Lemma reachable_initial_car (engine : SkFuzzy) :
  reachable (H := axis_math) (H1 := engine) initial_car.
Proof.
  apply (@reachable_init axis_math plain_pygame engine (80, 40) (500, 400)).
  exact initial_car_constructed.
Qed.

Lemma reachable_speed_constant_witness : speed initial_car = 10.
Proof.
  apply (reachable_speed_constant (H := axis_math) (H1 := spec_engine) initial_car).
  apply reachable_initial_car.
Defined.


Lemma run_Ok `{MathModule} `{Pygame} (ticks : list (Keys * Surface)) :
  forall car : Car,
    configured car -> distances_ok car ->
    exists car', run (H1 := spec_engine) ticks car = Ok car'.
Proof.
  induction ticks as [|[keys screen] ticks IH]; intros car Hc Hok; cbn [run].
  - eauto.
  - destruct (update_Ok keys screen car Hc Hok) as (car1 & s1 & E & Hc1).
    rewrite E. cbn [rbind fst]. apply IH; [exact Hc1|].
    exact (update_distances_ok (H1 := spec_engine) _ _ _ _ _ Hok E).
Qed.

Lemma run_autopilot_parity_witness :
  match run (H := axis_math) (H1 := spec_engine)
            [(space_key, wall_screen); (no_keys, black_screen); (space_key, wall_screen)]
            initial_car with
  | Ok car' => autopilot car' = false
  | Raise _ => False
  end.
Proof.
  destruct (run (H := axis_math) (H1 := spec_engine)
              [(space_key, wall_screen); (no_keys, black_screen); (space_key, wall_screen)]
              initial_car) as [car'|e] eqn:E.
  - exact (run_autopilot_parity (H := axis_math) (H1 := spec_engine) _ _ _ E).
  - destruct (run_Ok (H := axis_math)
                [(space_key, wall_screen); (no_keys, black_screen); (space_key, wall_screen)]
                initial_car) as [c E'].
    + reflexivity.
    + split; [reflexivity|]. cbn. repeat constructor; lia.
    + rewrite E' in E. discriminate E.
Defined.

Lemma unused_steering_labels_witness :
  Forall (fun r => term_label (rule_consequent r) <> "straight"
                   /\ term_label (rule_consequent r) <> "hard_left"
                   /\ term_parent (rule_consequent r) = "steering") steering_rules.
Proof.
  apply (unused_steering_labels RAYS steering_rules). exact make_rules_RAYS.
Defined.


Lemma scale_image_to_window_zero_height_witness :
  @scale_image_to_window size_pictures (640, 0) 1000 800 = None.
Proof.
  apply (@scale_image_to_window_zero_height size_pictures (640, 0) 1000 800).
  left. reflexivity.
Defined.
